(** * specguard: the verification engine, embedded and verified

    The development follows the TypeScript sources of the repository:
    - [utils.ts]      (trim, fileExists, readFile, dirname, joinPath),
    - [specguard.ts]  (extractScenarios, findStepsInTest, verifySteps),
    - [index.ts]      (processSpecguardFile, main).

    JavaScript strings are sequences of UTF-16 code units; they are modelled
    as lists of [N].  Regular expressions of the sources carry no [u] flag,
    so they work on code units as well. *)

From Stdlib Require Import Strings.String Strings.Ascii.
From Stdlib Require Import List NArith ZArith Bool Arith Lia.
Import ListNotations.

(* ================================================================== *)
(** * JavaScript strings and arrays *)
(* ================================================================== *)

Module JS.

Definition str := list N.

(** ASCII literal to code units (used for the constants of the sources). *)
Definition lit (s : String.string) : str :=
  map N_of_ascii (list_ascii_of_string s).

(** A few code units that the sources mention. *)
Definition dquote : N := 34.
Definition hash : N := 35.
Definition rparen : N := 41.
Definition comma : N := 44.
Definition slash : N := 47.
Definition newline : N := 10.

(** ECMAScript [LineTerminator]: LF, CR, U+2028, U+2029. *)
Definition isLineTerminator (c : N) : bool :=
  ((c =? 10) || (c =? 13) || (c =? 8232) || (c =? 8233))%N.

(** ECMAScript [WhiteSpace] together with [LineTerminator]: the set
    stripped by [String.prototype.trim] and matched by the class [\s]. *)
Definition isWhiteSpace (c : N) : bool :=
  ((c =? 9) || (c =? 11) || (c =? 12) || (c =? 32) || (c =? 160)
   || (c =? 5760) || ((8192 <=? c) && (c <=? 8202))
   || (c =? 8239) || (c =? 8287) || (c =? 12288) || (c =? 65279))%N
  || isLineTerminator c.

(** The regular-expression atom [.] (no [s] flag): anything but a line
    terminator. *)
Definition isDot (c : N) : bool := negb (isLineTerminator c).

Fixpoint eqb (a b : str) : bool :=
  match a, b with
  | [], [] => true
  | x :: a', y :: b' => (x =? y)%N && eqb a' b'
  | _, _ => false
  end.

(** [Boolean(s)] for a string: the empty string is the only falsy one. *)
Definition truthy (s : str) : bool :=
  match s with [] => false | _ :: _ => true end.

(** [x || ''] where [x] is [string | undefined]. *)
Definition orEmpty (x : option str) : str :=
  match x with Some s => s | None => [] end.

(** Strict equality [===] on [string | undefined]. *)
Definition strictEq (x y : option str) : bool :=
  match x, y with
  | Some a, Some b => eqb a b
  | None, None => true
  | _, _ => false
  end.

Fixpoint dropWhile (p : N -> bool) (s : str) : str :=
  match s with
  | [] => []
  | c :: s' => if p c then dropWhile p s' else s
  end.

Fixpoint takeWhile (p : N -> bool) (s : str) : str :=
  match s with
  | [] => []
  | c :: s' => if p c then c :: takeWhile p s' else []
  end.

Definition trimStart (s : str) : str := dropWhile isWhiteSpace s.
Definition trimEnd (s : str) : str := rev (dropWhile isWhiteSpace (rev s)).

(** [String.prototype.trim]. *)
Definition trim (s : str) : str := trimEnd (trimStart s).

(** [s.startsWith(p)], returning what follows the prefix. *)
Fixpoint stripPrefix (p s : str) : option str :=
  match p, s with
  | [], _ => Some s
  | x :: p', y :: s' => if (x =? y)%N then stripPrefix p' s' else None
  | _ :: _, [] => None
  end.

Definition startsWith (p s : str) : bool :=
  match stripPrefix p s with Some _ => true | None => false end.

(** [s.endsWith(p)], returning what precedes the suffix. *)
Definition stripSuffix (p s : str) : option str :=
  match stripPrefix (rev p) (rev s) with
  | Some r => Some (rev r)
  | None => None
  end.

(** [s.split(sep)] for a one-unit separator: never empty, [''.split(sep)]
    is [['']]. *)
Fixpoint split (sep : N) (s : str) : list str :=
  match s with
  | [] => [[]]
  | c :: s' =>
      if (c =? sep)%N then [] :: split sep s'
      else match split sep s' with
           | h :: t => (c :: h) :: t
           | [] => [[c]]
           end
  end.

(** [parts.join(sep)]. *)
Fixpoint join (sep : str) (parts : list str) : str :=
  match parts with
  | [] => []
  | [p] => p
  | p :: rest => p ++ sep ++ join sep rest
  end.

(** [s.lastIndexOf(p)]: the greatest index at which [p] occurs, or -1. *)
Fixpoint lastIndexOfFrom (p s : str) (i : Z) : Z :=
  let here := if startsWith p s then i else (-1)%Z in
  match s with
  | [] => here
  | _ :: s' =>
      let later := lastIndexOfFrom p s' (i + 1)%Z in
      if (0 <=? later)%Z then later else here
  end.

Definition lastIndexOf (s p : str) : Z := lastIndexOfFrom p s 0%Z.

(** [s.substring(i)] for an index [i >= 0]. *)
Definition substring (s : str) (i : Z) : str := skipn (Z.to_nat i) s.

(** [a.slice(from, to)] for [0 <= from <= to]. *)
Definition slice {A : Type} (a : list A) (from to : nat) : list A :=
  firstn (to - from) (skipn from a).

(** [a.includes(x)] on an array of strings. *)
Definition includes (a : list str) (x : str) : bool := existsb (eqb x) a.

(** [Set<string>.add]: insertion order is kept, a present element is not
    added again. *)
Definition setAdd (s : list str) (x : str) : list str :=
  if includes s x then s else s ++ [x].

(** [for (let i = lo; i < hi; i++) body], threading the loop's state. *)
Definition forRange {S : Type} (lo hi : nat) (body : nat -> S -> S) (s : S) : S :=
  fold_left (fun acc i => body i acc) (seq lo (hi - lo)) s.

End JS.

(* ================================================================== *)
(** * utils.ts *)
(* ================================================================== *)

Module Utils.
Import JS.

(** The file tree seen by one run: a path is mapped to the text of the
    file stored there, or to [None] when no file exists at that path. *)
Definition FileSystem := str -> option str.

(** [trim(str)]. *)
Definition trim (s : str) : str := JS.trim s.

(** [fileExists(path)]. *)
Definition fileExists (fs : FileSystem) (path : str) : bool :=
  match fs path with Some _ => true | None => false end.

(** [readFile(path)]; [None] stands for the rejected promise. *)
Definition readFile (fs : FileSystem) (path : str) : option str := fs path.

(** [replace(/\/+/g, '/')]: a slash followed by a slash is dropped. *)
Fixpoint collapseSlashes (s : str) : str :=
  match s with
  | [] => []
  | c :: s' =>
      match s' with
      | d :: _ =>
          if ((c =? slash) && (d =? slash))%N then collapseSlashes s'
          else c :: collapseSlashes s'
      | [] => [c]
      end
  end.

(** [joinPath(...parts)]. *)
Definition joinPath (parts : list str) : str :=
  collapseSlashes (join [slash] (filter truthy parts)).

(** [dirname(path)]. *)
Definition dirname (path : str) : str :=
  let parts := removelast (split slash path) in
  let joined := join [slash] parts in
  if truthy joined then joined else lit ".".

(** [basename(path, ext)]; [ext] is [None] when the argument is left out. *)
Definition basename (path : str) (ext : option str) : str :=
  let base := orEmpty (Some (last (split slash path) [])) in
  match ext with
  | Some e =>
      if truthy e then
        match stripSuffix e base with
        | Some stem => stem
        | None => base
        end
      else base
  | None => base
  end.


(** The loop of [findGitRoot] and the check of the root that follows it,
    with a bound on the number of rounds: [None] when the bound is reached
    before the loop ends, [Some result] otherwise. *)
Fixpoint findGitRootLoop (fs : FileSystem) (rounds : nat)
    (currentPath previousPath : str) : option (option str) :=
  match rounds with
  | 0 => None
  | S rounds' =>
      if negb (eqb currentPath (lit "/")) && negb (eqb currentPath (lit "."))
         && negb (eqb currentPath previousPath) then
        if fileExists fs (joinPath [currentPath; lit ".git"]) then Some (Some currentPath)
        else findGitRootLoop fs rounds' (dirname currentPath) currentPath
      else
        Some (if eqb currentPath (lit "/") then
                if fileExists fs (joinPath [currentPath; lit ".git"])
                then Some currentPath else None
              else None)
  end.

(** [findGitRoot(startPath)]; the bound is never reached, as is proved
    below. *)
Definition findGitRoot (fs : FileSystem) (startPath : str) : option str :=
  match findGitRootLoop fs (length startPath + 2) startPath [] with
  | Some result => result
  | None => None
  end.

(** [makePathRelative(absolutePath)], where [cwd] is what [process.cwd()]
    returns. *)
Definition makePathRelative (fs : FileSystem) (cwd absolutePath : str) : str :=
  let fileDir := dirname absolutePath in
  let gitRoot := findGitRoot fs fileDir in
  let basePath :=
    match gitRoot with
    | Some root => if truthy root then root else cwd
    | None => cwd
    end in
  match stripPrefix (basePath ++ [slash]) absolutePath with
  | Some rest => rest
  | None => absolutePath
  end.

End Utils.

(* ================================================================== *)
(** * specguard.ts *)
(* ================================================================== *)

Module Specguard.
Import JS Utils.

(** [type Step = string] and [type TestLevel = string]. *)
Abbreviation Step := str (only parsing).
Abbreviation TestLevel := str (only parsing).

Record Scenario := mkScenario {
  name : str;
  levels : list TestLevel;
  steps : list Step
}.

Inductive Reason := MissingFile | StepMismatch | StepCountMismatch.

Record Mismatch := mkMismatch {
  expected : Step;
  actual : Step;
  index : nat
}.

(** [StepVerificationResult]; an optional field that is not set is [None]. *)
Record StepVerificationResult := mkResult {
  passed : bool;
  reason : option Reason;
  expectedSteps : list Step;
  actualSteps : list Step;
  missingSteps : option (list Step);
  extraSteps : option (list Step);
  mismatchedSteps : option (list Mismatch)
}.

(** ** The regular expressions

    Each matcher follows the backtracking order of the expression it
    stands for and returns the text of the capture group that the source
    reads. *)

(** The heading expression [^ ## \s+ ( .+ )] (written here with blanks
    between its parts): after [##] and one white-space unit, the greedy
    [\s+] first tries to take one more unit; where that fails, the group
    [( .+ )] is tried at the current position. *)
Definition capturePlusRun (s : str) : option str :=
  match takeWhile isDot s with
  | [] => None
  | run => Some run
  end.

Fixpoint h2AfterSpace (s : str) : option str :=
  match s with
  | [] => None
  | c :: s' =>
      if isWhiteSpace c then
        match h2AfterSpace s' with
        | Some cap => Some cap
        | None => capturePlusRun s
        end
      else capturePlusRun s
  end.

Definition matchH2 (line : str) : option str :=
  match stripPrefix (lit "##") line with
  | Some (c :: s') => if isWhiteSpace c then h2AfterSpace s' else None
  | _ => None
  end.

(** The levels expression [^ levels: \s* ( .* )]: the group matches at
    any position, so the greedy [\s*] keeps all the white space it finds. *)
Definition matchLevels (line : str) : option str :=
  match stripPrefix (lit "levels:") line with
  | Some rest => Some (takeWhile isDot (dropWhile isWhiteSpace rest))
  | None => None
  end.

(** The two fence expressions: three backquotes followed by [specguard],
    and three backquotes. *)
Definition fenceSpecguard : str := lit "```specguard".
Definition fence : str := lit "```".

(** The tail of the step expression: a double quote and a closing
    parenthesis. *)
Definition closeMarker : str := [dquote; rparen].

(** The group [( .* )] and the tail, from a position inside the quoted
    text: the greedy group
    prefers to take one more unit and only then tries the tail here. *)
Fixpoint captureStar (s : str) : option str :=
  match s with
  | [] => None
  | c :: s' =>
      let here := if startsWith closeMarker s then Some [] else None in
      if isDot c then
        match captureStar s' with
        | Some cap => Some (c :: cap)
        | None => here
        end
      else here
  end.

(** The group [( .+ )] and the tail. *)
Definition capturePlus (s : str) : option str :=
  match s with
  | [] => None
  | c :: s' =>
      if isDot c then
        match captureStar s' with
        | Some cap => Some (c :: cap)
        | None => None
        end
      else None
  end.

(** The alternation of the two comment leaders, [#] and [//]. *)
Definition commentLeader (s : str) : option str :=
  match stripPrefix [hash] s with
  | Some r => Some r
  | None => stripPrefix [slash; slash] s
  end.

(** [stepRegex]: [^ \s* ( # | // ) \s* step \( DQ ( .+ ) DQ \)], where DQ
    is the double quote; the result is group 2.  Both
    [\s*] are followed by a unit that is no white space, so they take the
    whole run of white space. *)
Definition matchStep (line : str) : option str :=
  match commentLeader (dropWhile isWhiteSpace line) with
  | Some r =>
      match stripPrefix (lit "step(" ++ [dquote]) (dropWhile isWhiteSpace r) with
      | Some quoted => capturePlus quoted
      | None => None
      end
  | None => None
  end.

(** ** extractScenarios *)

Record ParseState := mkParseState {
  scenarios : list Scenario;
  currentScenario : option Scenario;
  inCodeblock : bool;
  currentSteps : list Step
}.

Definition initialState : ParseState :=
  mkParseState [] None false [].

(** [if (currentScenario && currentSteps.length > 0) { ... push ... }]. *)
Definition saveScenario (st : ParseState) : list Scenario :=
  match currentScenario st, currentSteps st with
  | Some cur, _ :: _ =>
      scenarios st ++ [mkScenario (name cur) (levels cur) (currentSteps st)]
  | _, _ => scenarios st
  end.

(** [levelsStr.split(',').map(trim).filter(Boolean)]. *)
Definition parseLevels (captured : str) : list TestLevel :=
  let levelsStr := trim (orEmpty (Some captured)) in
  filter truthy (map trim (split comma levelsStr)).

(** The body of the loop over the lines. *)
Definition parseLine (st : ParseState) (line : str) : ParseState :=
  match matchH2 line with
  | Some h2 =>
      mkParseState (saveScenario st)
                   (Some (mkScenario (JS.trim h2) [] []))
                   false []
  | None =>
      match currentScenario st, matchLevels line with
      | Some cur, Some captured =>
          mkParseState (scenarios st)
                       (Some (mkScenario (name cur) (parseLevels captured) (steps cur)))
                       (inCodeblock st) (currentSteps st)
      | _, _ =>
          if startsWith fenceSpecguard line then
            mkParseState (scenarios st) (currentScenario st) true (currentSteps st)
          else if startsWith fence line && inCodeblock st then
            mkParseState (scenarios st) (currentScenario st) false (currentSteps st)
          else if inCodeblock st
                  && (match currentScenario st with Some _ => true | None => false end)
                  && truthy (trim line) then
            mkParseState (scenarios st) (currentScenario st) (inCodeblock st)
                         (currentSteps st ++ [line])
          else st
      end
  end.

(** The function on the text of the file. *)
Definition parseScenarios (content : str) : list Scenario :=
  saveScenario (fold_left parseLine (split newline content) initialState).

Definition extractScenarios (fs : FileSystem) (filePath : str) : option (list Scenario) :=
  match readFile fs filePath with
  | Some content => Some (parseScenarios content)
  | None => None
  end.

(** ** findStepsInTest *)

Definition stepsOfContent (content : str) : list Step :=
  fold_left
    (fun steps line =>
       match matchStep line with
       | Some group2 => steps ++ [orEmpty (Some group2)]
       | None => steps
       end)
    (split newline content) [].

Definition findStepsInTest (fs : FileSystem) (filePath : str) : list Step :=
  if negb (fileExists fs filePath) then []
  else match readFile fs filePath with
       | Some content => stepsOfContent content
       | None => []
       end.

(** ** verifySteps *)

Definition verifySteps (fs : FileSystem) (testFile : str) (expectedSteps : list Step)
  : StepVerificationResult :=
  if negb (fileExists fs testFile) then
    mkResult false (Some MissingFile) expectedSteps [] (Some expectedSteps) None None
  else
    let actualSteps := findStepsInTest fs testFile in
    let normalizedExpected := map trim expectedSteps in
    let normalizedActual := map trim actualSteps in
    if negb (length normalizedExpected =? length normalizedActual) then
      let missingSteps :=
        forRange 0 (length normalizedExpected)
          (fun i acc =>
             if length normalizedActual <=? i
             then acc ++ [orEmpty (nth_error normalizedExpected i)]
             else acc) [] in
      let extraSteps :=
        forRange (length normalizedExpected) (length normalizedActual)
          (fun i acc => acc ++ [orEmpty (nth_error normalizedActual i)]) [] in
      mkResult false (Some StepCountMismatch) expectedSteps actualSteps
               (Some missingSteps) (Some extraSteps) None
    else
      let mismatchedSteps :=
        forRange 0 (length normalizedExpected)
          (fun i acc =>
             let expected := nth_error normalizedExpected i in
             let actual := nth_error normalizedActual i in
             if negb (strictEq expected actual)
             then acc ++ [mkMismatch (orEmpty expected) (orEmpty actual) i]
             else acc) [] in
      match mismatchedSteps with
      | _ :: _ =>
          mkResult false (Some StepMismatch) expectedSteps actualSteps
                   None None (Some mismatchedSteps)
      | [] =>
          mkResult true None expectedSteps actualSteps None None None
      end.

(** ** extractSteps *)

(** The body of the loop of [extractSteps]: the state is [inCodeblock]
    and the steps collected so far. *)
Definition stepsLine (st : bool * list Step) (line : str) : bool * list Step :=
  if startsWith fenceSpecguard line then (true, snd st)
  else if startsWith fence line && fst st then (false, snd st)
  else if fst st && truthy (trim line) then (fst st, snd st ++ [line])
  else st.

Definition stepsOfSpec (content : str) : list Step :=
  snd (fold_left stepsLine (split newline content) (false, [])).

Definition extractSteps (fs : FileSystem) (filePath : str) : option (list Step) :=
  match readFile fs filePath with
  | Some content => Some (stepsOfSpec content)
  | None => None
  end.

(** ** extractLevels *)

(** The loop of [extractLevels]: it returns at the first line that the
    levels expression matches. *)
Fixpoint firstLevels (lines : list str) : list TestLevel :=
  match lines with
  | [] => []
  | line :: rest =>
      match matchLevels line with
      | Some captured => parseLevels captured
      | None => firstLevels rest
      end
  end.

Definition extractLevels (fs : FileSystem) (filePath : str) : option (list TestLevel) :=
  match readFile fs filePath with
  | Some content => Some (firstLevels (split newline content))
  | None => None
  end.

End Specguard.

(* ================================================================== *)
(** * index.ts *)
(* ================================================================== *)

Module Index.
Import JS Utils Specguard.

Record ScenarioVerificationResult := mkScenarioResult {
  scenarioName : str;
  stepVerification : StepVerificationResult
}.

(** [TestFileResult]; its [passed] and [reason] are named [filePassed] and
    [fileReason] here, apart from the fields of [StepVerificationResult]. *)
Record TestFileResult := mkTestFileResult {
  testFile : str;
  specFile : str;
  level : TestLevel;
  filePassed : bool;
  fileReason : option Reason;
  scenarioResults : list ScenarioVerificationResult
}.

Record TestSummary := mkSummary {
  totalFiles : nat;
  passedFiles : nat;
  failedFiles : nat;
  missingFiles : nat;
  results : list TestFileResult
}.

(** What [logWarning] is called with. *)
Inductive Warning := NoScenariosDefined (specguardFile : str).

Definition commonExtensions : list str :=
  map lit [".ts"; ".test.ts"; ".spec.ts"; ".js"; ".test.js"; ".spec.js"; ".sh"; ".py"]%string.

(** The relative path below the specguard folder, without [.md]. *)
Definition relPathNoExt (specguardFile specguardFolderName : str) : str :=
  let specFolderPattern := [slash] ++ specguardFolderName ++ [slash] in
  let lastIndex := lastIndexOf specguardFile specFolderPattern in
  let relPath :=
    if (0 <=? lastIndex)%Z
    then substring specguardFile (lastIndex + Z.of_nat (length specFolderPattern))
    else [] in
  match stripSuffix (lit ".md") relPath with
  | Some stem => stem
  | None => relPath
  end.

(** The loop over the scenarios that fills the set [allLevels]. *)
Definition allLevels (scenarios : list Scenario) : list TestLevel :=
  fold_left
    (fun acc scenario =>
       fold_left (fun acc' level => setAdd acc' (trim level)) (levels scenario) acc)
    scenarios [].

(** The loop over [commonExtensions] with its [break]; [testFile] stays
    the empty string when no candidate exists. *)
Fixpoint firstExisting (fs : FileSystem) (testFileBase : str) (exts : list str) : str :=
  match exts with
  | [] => []
  | ext :: rest =>
      let candidate := testFileBase ++ ext in
      if fileExists fs candidate then candidate
      else firstExisting fs testFileBase rest
  end.

(** The path handed to [verifySteps], and whether a candidate was found
    (the test [!testFile] of the source, negated). *)
Definition resolveTestFile (fs : FileSystem) (testFileBase : str) : str * bool :=
  let testFile := firstExisting fs testFileBase commonExtensions in
  if negb (truthy testFile) then (testFileBase ++ lit ".*", false)
  else (testFile, true).

(** The loop that collects the steps of the scenarios of one level. *)
Definition allStepsForLevel (scenarios : list Scenario) (levelTrimmed : TestLevel)
  : list Step :=
  fold_left
    (fun acc scenario =>
       if includes (levels scenario) levelTrimmed then acc ++ steps scenario else acc)
    scenarios [].

(** The comparison loop written inline for one scenario: the state is
    [(passed, reason)] of [scenarioVerification]. *)
Definition checkScenario (scenarioExpectedSteps scenarioActualSteps : list Step)
  : bool * option Reason :=
  forRange 0 (length scenarioExpectedSteps)
    (fun i st =>
       let expected := option_map JS.trim (nth_error scenarioExpectedSteps i) in
       let actual := option_map JS.trim (nth_error scenarioActualSteps i) in
       if negb (strictEq expected actual) then
         (false, Some (if truthy (orEmpty actual) then StepMismatch else StepCountMismatch))
       else st)
    (true, None).

(** The result built for one scenario at the offset [stepIndex]. *)
Definition scenarioVerification (verification : StepVerificationResult)
    (scenario : Scenario) (stepIndex : nat) : StepVerificationResult :=
  let scenarioStepCount := length (steps scenario) in
  let scenarioExpectedSteps := steps scenario in
  let scenarioActualSteps :=
    slice (actualSteps verification) stepIndex (stepIndex + scenarioStepCount) in
  let '(p, r) := checkScenario scenarioExpectedSteps scenarioActualSteps in
  match reason verification with
  | Some MissingFile =>
      mkResult false (Some MissingFile) scenarioExpectedSteps scenarioActualSteps
               (Some scenarioExpectedSteps) None None
  | _ =>
      mkResult p r scenarioExpectedSteps scenarioActualSteps None None None
  end.

(** The loop that builds [scenarioResults], with its running [stepIndex]. *)
Fixpoint scenarioLoop (verification : StepVerificationResult)
    (levelTrimmed : TestLevel) (scenarios : list Scenario) (stepIndex : nat)
  : list ScenarioVerificationResult :=
  match scenarios with
  | [] => []
  | scenario :: rest =>
      if includes (levels scenario) levelTrimmed then
        mkScenarioResult (name scenario)
                         (scenarioVerification verification scenario stepIndex)
        :: scenarioLoop verification levelTrimmed rest
                        (stepIndex + length (steps scenario))
      else scenarioLoop verification levelTrimmed rest stepIndex
  end.

(** The body of the loop over the levels.  Next to the [TestFileResult] it
    gives the result of the call of [verifySteps], which the source keeps
    in the local [verification]. *)
Definition processLevel (fs : FileSystem) (specguardFile baseDir : str)
    (relPath : str) (scenarios : list Scenario) (level : TestLevel)
  : StepVerificationResult * TestFileResult :=
  let levelTrimmed := trim level in
  let testFileBase := joinPath [baseDir; levelTrimmed; relPath] in
  let testFile := fst (resolveTestFile fs testFileBase) in
  let verification := verifySteps fs testFile (allStepsForLevel scenarios levelTrimmed) in
  let scenarioResults := scenarioLoop verification levelTrimmed scenarios 0 in
  (verification,
   mkTestFileResult testFile specguardFile levelTrimmed
                    (passed verification) (reason verification) scenarioResults).

(** [processSpecguardFile]: the results and the warnings it logs; [None]
    when reading the spec file fails. *)
Definition processSpecguardFile (fs : FileSystem) (specguardFile baseDir : str)
    (specguardFolderName : str) : option (list TestFileResult * list Warning) :=
  match extractScenarios fs specguardFile with
  | None => None
  | Some [] => Some ([], [NoScenariosDefined specguardFile])
  | Some scenarios =>
      let relPath := relPathNoExt specguardFile specguardFolderName in
      Some (map (fun level =>
                   snd (processLevel fs specguardFile baseDir relPath scenarios level))
                (allLevels scenarios),
            [])
  end.

(** The base directory computed in [main]: the directory of the spec file
    without a final [/<specguardFolderName>].  The source builds a regular
    expression from the folder name; for a name of letters, digits, [-] and
    [_] that expression is the literal suffix. *)
Definition baseDirOf (fullPath specguardFolderName : str) : str :=
  let specguardDir := dirname fullPath in
  match stripSuffix ([slash] ++ specguardFolderName) specguardDir with
  | Some parent => parent
  | None => specguardDir
  end.


Definition isMissing (r : TestFileResult) : bool :=
  match fileReason r with Some MissingFile => true | _ => false end.

Definition summarize (allResults : list TestFileResult) : TestSummary :=
  mkSummary (length allResults)
            (length (filter filePassed allResults))
            (length (filter (fun r => negb (filePassed r)) allResults))
            (length (filter isMissing allResults))
            allResults.



(** ** parseArgs *)

Record CliOptions := mkCliOptions {
  verbose : bool;
  specguardFolderName : str;
  searchDir : str;
  help : bool
}.

(** The two ways in which [parseArgs] ends the process with code 1. *)
Inductive ArgError :=
| FolderNameRequired
| UnknownOption (arg : str).

Definition defaultOptions : CliOptions :=
  mkCliOptions false (lit "specguard") (lit ".") false.

(** The loop of [parseArgs] from the argument at hand on; the case
    [--specguard-folder-name] reads the argument after it. *)
Fixpoint parseArgsLoop (args : list str) (options : CliOptions)
  : ArgError + CliOptions :=
  match args with
  | [] => inr options
  | arg :: rest =>
      if eqb arg (lit "--verbose") || eqb arg (lit "-v") then
        parseArgsLoop rest
          (mkCliOptions true (specguardFolderName options) (searchDir options)
                        (help options))
      else if eqb arg (lit "--specguard-folder-name") then
        match rest with
        | [] => inl FolderNameRequired
        | value :: rest' =>
            if negb (truthy value) then inl FolderNameRequired
            else parseArgsLoop rest'
                   (mkCliOptions (verbose options)
                                 (if truthy value then value else lit "specguard")
                                 (searchDir options) (help options))
        end
      else if eqb arg (lit "--help") || eqb arg (lit "-h") then
        parseArgsLoop rest
          (mkCliOptions (verbose options) (specguardFolderName options)
                        (searchDir options) true)
      else if startsWith (lit "-") arg then inl (UnknownOption arg)
      else
        parseArgsLoop rest
          (mkCliOptions (verbose options) (specguardFolderName options) arg
                        (help options))
  end.

Definition parseArgs (args : list str) : ArgError + CliOptions :=
  parseArgsLoop args defaultOptions.

End Index.

(* ================================================================== *)
(** * output.ts *)
(* ================================================================== *)

Module Output.
Import JS Utils Specguard Index.

(** The keys of [Colors] that [colorize] is called with. *)
Inductive Color := RED | GREEN | YELLOW.

Definition escape : N := 27.

(** The ANSI codes of [Colors]. *)
Definition colorCode (color : Color) : str :=
  match color with
  | RED => escape :: lit "[0;31m"
  | GREEN => escape :: lit "[0;32m"
  | YELLOW => escape :: lit "[1;33m"
  end.
Definition NC : str := escape :: lit "[0m".

(** [colorize(color, text)]. *)
Definition colorize (color : Color) (text : str) : str :=
  colorCode color ++ text ++ NC.

(** The three marks: a ballot cross, a check mark and a white circle. *)
Definition cross : str := [10007%N].
Definition check : str := [10003%N].
Definition circle : str := [9675%N].

(** A value of type [string | undefined] inside a template literal. *)
Definition shown (x : option str) : str :=
  match x with Some s => s | None => lit "undefined" end.

(** The four kinds of step lines. *)
Definition missingLine (indent expected : str) : str :=
  indent ++ lit "  " ++ colorize RED cross ++ lit " " ++ expected ++ lit " "
         ++ colorize RED (lit "(missing)").
Definition okLine (indent expected : str) : str :=
  indent ++ lit "  " ++ colorize GREEN check ++ lit " " ++ expected.
Definition wrongLine (indent expected : str) : str :=
  indent ++ lit "  " ++ colorize RED cross ++ lit " " ++ expected.
Definition extraLine (indent extra : str) : str :=
  indent ++ lit "  " ++ colorize YELLOW (lit "+") ++ lit " " ++ extra ++ lit " "
         ++ colorize YELLOW (lit "(extra)").

(** [printVerboseVerification(testFile, result, indent)]: the lines it
    logs, in order.  The argument [testFile] is not used by the source. *)
Definition printVerboseVerification (result : StepVerificationResult) (indent : str)
  : list str :=
  match reason result with
  | Some MissingFile =>
      (indent ++ colorize YELLOW (lit "File does not exist"))
      :: map (fun step => indent ++ lit "  " ++ colorize YELLOW circle ++ lit " "
                                 ++ JS.trim step)
             (expectedSteps result)
  | _ =>
      let normalizedExpected := map JS.trim (expectedSteps result) in
      let normalizedActual := map JS.trim (actualSteps result) in
      let stepLines :=
        forRange 0 (length normalizedExpected)
          (fun i out =>
             let expected := nth_error normalizedExpected i in
             let actual := nth_error normalizedActual i in
             if negb (truthy (orEmpty actual)) then
               out ++ [missingLine indent (shown expected)]
             else if strictEq expected actual then
               out ++ [okLine indent (shown expected)]
             else out ++ [wrongLine indent (shown expected)]) [] in
      let extraLines :=
        if length normalizedExpected <? length normalizedActual then
          forRange (length normalizedExpected) (length normalizedActual)
            (fun i out => out ++ [extraLine indent (shown (nth_error normalizedActual i))])
            []
        else [] in
      stepLines ++ extraLines
  end.

End Output.

(* ================================================================== *)
(** * Reference notions used in the statements *)
(* ================================================================== *)

Module Reference.
Import JS Utils Specguard Index.

(** The indices below [length exp] at which the two lists differ after
    trimming, in increasing order. *)
Definition unequalIndices (exp act : list Step) : list nat :=
  filter (fun i => negb (eqb (trim (nth i exp [])) (trim (nth i act []))))
         (seq 0 (length exp)).

(** The entry reported for index [i]: the two trimmed steps and [i]. *)
Definition mismatchAt (exp act : list Step) (i : nat) : Mismatch :=
  mkMismatch (trim (nth i exp [])) (trim (nth i act [])) i.

(** Whether a scenario has at least one step. *)
Definition hasSteps (sc : Scenario) : bool :=
  match steps sc with [] => false | _ :: _ => true end.

(** Whether the level list of a scenario contains the level. *)
Definition hasLevel (lvl : TestLevel) (sc : Scenario) : bool :=
  if in_dec (list_eq_dec N.eq_dec) lvl (levels sc) then true else false.

(** The parser without its rule on empty step lists: every scenario that
    a heading opens is recorded when it is closed, by the next heading or
    by the end of the input, with the levels and steps it holds then. *)
Definition closeScenario (st : ParseState) : list Scenario :=
  match currentScenario st with
  | Some cur => scenarios st ++ [mkScenario (name cur) (levels cur) (currentSteps st)]
  | None => scenarios st
  end.

Definition recordLine (st : ParseState) (line : str) : ParseState :=
  match matchH2 line with
  | Some h2 =>
      mkParseState (closeScenario st) (Some (mkScenario (JS.trim h2) [] [])) false []
  | None => parseLine st line
  end.

Definition openedScenarios (content : str) : list Scenario :=
  closeScenario (fold_left recordLine (split newline content) initialState).

(** The parser and the parser without the rule on empty step lists run in
    step: they agree on the open scenario, the block flag and the pending
    steps, and the first holds the scenarios of the second that have
    steps. *)
Definition inStep (st ref : ParseState) : Prop :=
  currentScenario st = currentScenario ref /\
  inCodeblock st = inCodeblock ref /\
  currentSteps st = currentSteps ref /\
  scenarios st = filter hasSteps (scenarios ref).

(** A level list as the spec words it: the entries between the commas,
    each trimmed, the empty ones dropped, in the order written. *)
Definition levelEntries (csv : str) : list TestLevel :=
  filter truthy (map trim (split comma csv)).

(** Whether the tail of the step expression, a double quote and a closing
    parenthesis, occurs in the text. *)
Fixpoint hasCloseMarker (t : str) : bool :=
  match t with
  | [] => false
  | _ :: t' => startsWith closeMarker t || hasCloseMarker t'
  end.

(** A marker line: indentation, one of the two comment leaders, white
    space, the keyword with the quoted text, and what follows on the line. *)
Definition markerLine (indent leader gap quoted trailing : str) : str :=
  indent ++ leader ++ gap ++ lit "step(" ++ [dquote] ++ quoted ++ closeMarker ++ trailing.

(** What holds of every level entry that the parser stores: it is not
    empty, trimming does not change it, and it holds neither a comma nor
    a line terminator. *)
Definition goodLevel (l : TestLevel) : Prop :=
  l <> [] /\ trim l = l /\
  Forall (fun c => (c =? comma)%N = false) l /\
  Forall (fun c => isDot c = true) l.

(** What holds of every step that the parser stores: it is not blank, it
    holds no line feed, it does not start with a fence, and it is neither
    a heading nor a levels line. *)
Definition goodStep (s : Step) : Prop :=
  trim s <> [] /\
  Forall (fun c => (c =? newline)%N = false) s /\
  startsWith fence s = false /\
  matchH2 s = None /\
  matchLevels s = None.

(** What holds of every scenario name that the parser stores. *)
Definition goodName (n : str) : Prop :=
  trim n = n /\ Forall (fun c => isDot c = true) n.

Definition goodScenario (sc : Scenario) : Prop :=
  goodName (name sc) /\ Forall goodLevel (levels sc) /\
  Forall goodStep (steps sc) /\ steps sc <> [].

(** The lines of a scenario in the layout of the spec files: heading,
    levels line, opening fence, one line per step, closing fence. *)
Definition formatScenario (sc : Scenario) : list str :=
  [lit "## " ++ name sc;
   lit "levels: " ++ join (lit ", ") (levels sc);
   fenceSpecguard]
  ++ steps sc ++ [fence].

Definition formatSpec (scs : list Scenario) : str :=
  join [newline] (flat_map formatScenario scs).

(** [Subseq a b]: [a] is [b] with some entries left out. *)
Inductive Subseq {A : Type} : list A -> list A -> Prop :=
| Subseq_nil : Subseq [] []
| Subseq_skip : forall a b x, Subseq a b -> Subseq a (b ++ [x])
| Subseq_keep : forall a b x, Subseq a b -> Subseq (a ++ [x]) (b ++ [x]).

(** The units of a folder name for which the expression that [main]
    builds from it is the literal name: letters, digits, [-] and [_]. *)
Definition isPlain (c : N) : bool :=
  (((48 <=? c) && (c <=? 57)) || ((65 <=? c) && (c <=? 90))
   || ((97 <=? c) && (c <=? 122)) || (c =? 45) || (c =? 95))%N.

(** Whether the text holds no two slashes in a row. *)
Fixpoint noDoubleSlash (s : str) : bool :=
  match s with
  | [] => true
  | c :: s' =>
      match s' with
      | d :: _ => negb ((c =? slash) && (d =? slash))%N && noDoubleSlash s'
      | [] => true
      end
  end.

End Reference.

(* ================================================================== *)
(** * Sample inputs *)
(* ================================================================== *)

Module Fixtures.
Import JS Utils Specguard Index.

(** [join] of lines with the line feed. *)
Definition text (lines : list str) : str := join [newline] lines.

(** The marker line [// step(DQ s DQ)] with the given quoted text. *)
Definition slashMarker (s : str) : str :=
  lit "// step(" ++ [dquote] ++ s ++ [dquote] ++ lit ")".

(** The marker line [# step(DQ s DQ)]. *)
Definition hashMarker (s : str) : str :=
  lit "# step(" ++ [dquote] ++ s ++ [dquote] ++ lit ")".

(** A file tree with a single file. *)
Definition oneFile (path content : str) : FileSystem :=
  fun p => if eqb p path then Some content else None.

(** A file tree with two files. *)
Definition twoFiles (path1 content1 path2 content2 : str) : FileSystem :=
  fun p => if eqb p path1 then Some content1
           else if eqb p path2 then Some content2 else None.

Definition authTest : str := lit "a/unit/auth.ts".

(** Two markers, [Validate input] and [Check user]. *)
Definition authTwoSteps : str :=
  text [slashMarker (lit "Validate input"); lit "const u = 1;";
        slashMarker (lit "Check user")].

Definition fsAuth : FileSystem := oneFile authTest authTwoSteps.

(** Expected steps that agree with [authTwoSteps] at index 0 only. *)
Definition expectTwo : list Step := [lit " Validate input "; lit "Verify hash"].

(** Expected steps, one more than [authTwoSteps] holds; the surplus one
    is written with blanks around it. *)
Definition expectThree : list Step :=
  [lit "Validate input"; lit "Check user"; lit "  Verify hash "].

(** One expected step, where the file has two markers; the second marker
    of [authPadded] holds blanks around its text. *)
Definition expectOne : list Step := [lit "Validate input"].
Definition authPadded : str :=
  text [slashMarker (lit "Validate input"); hashMarker (lit " Check user ")].
Definition fsPadded : FileSystem := oneFile authTest authPadded.

(** A spec file whose only scenario names the level [unit] twice. *)
Definition specRepeatedLevel : str :=
  text [lit "## Login"; lit "levels: unit, e2e ,, unit"; lit "```specguard";
        lit "Validate input"; lit "```"].

(** A spec file with a scenario that has a levels line and no step block,
    between two scenarios that have steps. *)
Definition specWithEmpty : str :=
  text [lit "# Title"; lit "## First"; lit "levels: unit"; lit "```specguard";
        lit "Validate input"; lit "```"; lit "## Empty"; lit "levels: unit";
        lit "## Last"; lit "levels: unit"; lit "```specguard"; lit "Check user";
        lit "```"].

Definition authSpec : str := lit "a/specguard/auth.md".
Definition fsWithEmpty : FileSystem :=
  twoFiles authSpec specWithEmpty authTest authTwoSteps.

(** A tree where the candidates [.test.ts] and [.sh] exist and [.ts] does
    not. *)
Definition fsTwoCandidates : FileSystem :=
  twoFiles (lit "a/unit/auth.sh") authTwoSteps
           (lit "a/unit/auth.test.ts") authTwoSteps.

(** One scenario with one step, and a test file whose only marker holds a
    single blank between the quotes. *)
Definition specOneStep : str :=
  text [lit "## Login"; lit "levels: unit"; lit "```specguard";
        lit "Validate input"; lit "```"].
Definition authBlankMarker : str := slashMarker (lit " ").
Definition fsBlankMarker : FileSystem :=
  twoFiles authSpec specOneStep authTest authBlankMarker.

(** A parser state with an open scenario. *)
Definition openState : ParseState :=
  mkParseState [] (Some (mkScenario (lit "Login") [] [])) false [].

(** Two scenarios in the layout of the spec files. *)
Definition loginScenario : Scenario :=
  mkScenario (lit "Login") [lit "unit"; lit "e2e"]
             [lit "Validate input"; lit "  Check user"].
Definition logoutScenario : Scenario :=
  mkScenario (lit "Log out") [lit "unit"] [lit "Drop session"].

(** A test file that holds the markers of the two steps of
    [specWithEmpty] for the level [unit], the second one indented inside
    the quotes. *)
Definition authMatching : str :=
  text (map slashMarker [lit "Validate input"; lit "  Check user "]).
Definition fsMatching : FileSystem :=
  twoFiles authSpec specWithEmpty authTest authMatching.

(** A tree with a checkout at [/repo]. *)
Definition fsCheckout : FileSystem :=
  twoFiles (lit "/repo/.git") [] (lit "/repo/tests/unit/auth.ts") authTwoSteps.

End Fixtures.

(* ================================================================== *)
(** * Facts about strings and loops *)
(* ================================================================== *)

Import JS Utils Specguard Index Reference.

Lemma eqb_refl (a : str) : eqb a a = true.
Proof.
  induction a as [|x a IH]; simpl; [reflexivity|].
  now rewrite N.eqb_refl, IH.
Qed.

Lemma eqb_eq (a b : str) : eqb a b = true <-> a = b.
Proof.
  split.
  - revert b; induction a as [|x a IH]; intros [|y b] H; simpl in H;
      try discriminate; [reflexivity|].
    apply andb_true_iff in H as [Hx Hab].
    apply N.eqb_eq in Hx. f_equal; [exact Hx | now apply IH].
  - intros ->. apply eqb_refl.
Qed.

Lemma eqb_neq (a b : str) : eqb a b = false <-> a <> b.
Proof.
  rewrite <- eqb_eq. destruct (eqb a b); split; congruence.
Qed.

(** A loop that only appends to its accumulator is a [flat_map]. *)
Lemma fold_left_append {A B : Type} (f : B -> list A) (l : list B) (init : list A) :
  fold_left (fun acc i => acc ++ f i) l init = init ++ flat_map f l.
Proof.
  revert init; induction l as [|b l IH]; intros init; simpl.
  - now rewrite app_nil_r.
  - rewrite IH. now rewrite <- app_assoc.
Qed.

Lemma forRange_append {A : Type} (f : nat -> list A) (body : nat -> list A -> list A)
    (lo hi : nat) :
  (forall i acc, lo <= i < hi -> body i acc = acc ++ f i) ->
  forRange lo hi body [] = flat_map f (seq lo (hi - lo)).
Proof.
  intros Hbody. unfold forRange.
  assert (G : forall l init, (forall i, In i l -> lo <= i < hi) ->
              fold_left (fun acc i => body i acc) l init = init ++ flat_map f l).
  { induction l as [|i l IH]; intros init Hin; simpl.
    - now rewrite app_nil_r.
    - rewrite Hbody by (apply Hin; now left).
      rewrite IH by (intros j Hj; apply Hin; now right).
      now rewrite <- app_assoc. }
  rewrite G; [reflexivity|].
  intros i Hi. apply in_seq in Hi. lia.
Qed.

Lemma nth_error_nth_default {A : Type} (l : list A) (i : nat) (d : A) :
  i < length l -> nth_error l i = Some (nth i l d).
Proof.
  revert i; induction l as [|x l IH]; intros [|i] H; simpl in *; try lia;
    [reflexivity | apply IH; lia].
Qed.

Lemma nth_map_trim (l : list str) (i : nat) :
  nth i (map trim l) [] = trim (nth i l []).
Proof.
  destruct (Nat.lt_ge_cases i (length l)) as [H|H].
  - rewrite (nth_indep _ [] (trim [])) by (now rewrite length_map).
    apply map_nth.
  - rewrite !nth_overflow by (rewrite ?length_map; lia). reflexivity.
Qed.

(** [flat_map] of a function that yields at most one element per index. *)
Lemma flat_map_single_map {A B : Type} (p : A -> bool) (g : A -> B) (l : list A) :
  flat_map (fun i => if p i then [g i] else []) l = map g (filter p l).
Proof.
  induction l as [|a l IH]; simpl; [reflexivity|].
  destruct (p a); simpl; now rewrite IH.
Qed.

Lemma filter_nil_iff {A : Type} (p : A -> bool) (l : list A) :
  filter p l = [] <-> forall x, In x l -> p x = false.
Proof.
  induction l as [|a l IH]; simpl.
  - split; [intros _ x [] | reflexivity].
  - destruct (p a) eqn:Ha; split.
    + discriminate.
    + intros H. specialize (H a (or_introl eq_refl)). congruence.
    + intros H x [<-|Hx]; [exact Ha | now apply IH].
    + intros H. apply IH. intros x Hx. apply H. now right.
Qed.

Lemma seq_filter_ge (m n : nat) :
  filter (fun i => m <=? i) (seq 0 n) = seq m (n - m).
Proof.
  destruct (Nat.le_gt_cases m n) as [H|H].
  - replace n with (m + (n - m)) at 1 by lia.
    rewrite seq_app, filter_app. simpl.
    replace (filter (fun i => m <=? i) (seq 0 m)) with (@nil nat).
    + simpl. apply forallb_filter_id. apply forallb_forall.
      intros i Hi. apply in_seq in Hi. apply Nat.leb_le. lia.
    + symmetry. apply filter_nil_iff. intros i Hi. apply in_seq in Hi.
      apply Nat.leb_gt. lia.
  - replace (n - m) with 0 by lia. simpl.
    apply filter_nil_iff. intros i Hi. apply in_seq in Hi.
    apply Nat.leb_gt. lia.
Qed.

(** Reading an array at the indices [m, m+1, ...] up to its end gives the
    tail that starts at [m]. *)
Lemma map_index_skipn (l : list str) (m : nat) :
  map (fun i => orEmpty (nth_error l i)) (seq m (length l - m)) = skipn m l.
Proof.
  revert m; induction l as [|x l IH]; intros m.
  - simpl. now destruct m.
  - destruct m as [|m].
    + simpl. f_equal. specialize (IH 0). rewrite Nat.sub_0_r in IH.
      simpl in IH. rewrite <- seq_shift, map_map. exact IH.
    + simpl. rewrite <- seq_shift, map_map. apply IH.
Qed.

(* ================================================================== *)
(** * The verifier *)
(* ================================================================== *)

Section Verifier.

Variable fs : FileSystem.
Variable testFile : str.

(** The two loops of the count branch compute the two tails. *)
Lemma missing_loop (E A : list str) :
  forRange 0 (length E)
    (fun i acc => if length A <=? i then acc ++ [orEmpty (nth_error E i)] else acc) []
  = skipn (length A) E.
Proof.
  rewrite (forRange_append
             (fun i => if length A <=? i then [orEmpty (nth_error E i)] else [])).
  - rewrite Nat.sub_0_r, flat_map_single_map, seq_filter_ge.
    apply map_index_skipn.
  - intros i acc _. destruct (length A <=? i); [reflexivity | now rewrite app_nil_r].
Qed.

Lemma extra_loop (E A : list str) :
  forRange (length E) (length A)
    (fun i acc => acc ++ [orEmpty (nth_error A i)]) []
  = skipn (length E) A.
Proof.
  rewrite (forRange_append (fun i => [orEmpty (nth_error A i)])) by reflexivity.
  rewrite <- (map_index_skipn A (length E)).
  generalize (seq (length E) (length A - length E)).
  induction l as [|i l IH]; simpl; [reflexivity | now rewrite IH].
Qed.

(** The loop of the content branch reports the unequal indices. *)
Lemma mismatch_loop (exp act : list Step) :
  length exp = length act ->
  forRange 0 (length (map trim exp))
    (fun i acc =>
       let expected := nth_error (map trim exp) i in
       let actual := nth_error (map trim act) i in
       if negb (strictEq expected actual)
       then acc ++ [mkMismatch (orEmpty expected) (orEmpty actual) i]
       else acc) []
  = map (mismatchAt exp act) (unequalIndices exp act).
Proof.
  intros Hlen.
  rewrite (forRange_append
             (fun i => if negb (eqb (trim (nth i exp [])) (trim (nth i act []))) 
                       then [mismatchAt exp act i] else [])).
  - rewrite Nat.sub_0_r, flat_map_single_map, length_map. reflexivity.
  - intros i acc [_ Hi]. rewrite length_map in Hi. cbv zeta.
    rewrite (nth_error_nth_default (map trim exp) i []) by (now rewrite length_map).
    rewrite (nth_error_nth_default (map trim act) i [])
      by (rewrite length_map; lia).
    rewrite !nth_map_trim. simpl.
    destruct (eqb (trim (nth i exp [])) (trim (nth i act []))); simpl;
      [now rewrite app_nil_r | reflexivity].
Qed.

Lemma unequalIndices_nil (exp act : list Step) :
  unequalIndices exp act = [] <->
  forall i, i < length exp -> trim (nth i exp []) = trim (nth i act []).
Proof.
  unfold unequalIndices. rewrite filter_nil_iff. split.
  - intros H i Hi. apply eqb_eq.
    specialize (H i). rewrite in_seq in H.
    apply negb_false_iff. apply H. lia.
  - intros H i Hi. apply in_seq in Hi. apply negb_false_iff, eqb_eq, H. lia.
Qed.

Lemma unequalIndices_cons (exp act : list Step) :
  unequalIndices exp act <> [] <->
  exists i, i < length exp /\ trim (nth i exp []) <> trim (nth i act []).
Proof.
  split.
  - intros H. destruct (unequalIndices exp act) as [|i l] eqn:E; [congruence|].
    assert (Hin : In i (unequalIndices exp act)) by (rewrite E; now left).
    unfold unequalIndices in Hin. apply filter_In in Hin as [Hs Hb].
    apply in_seq in Hs. exists i. split; [lia|].
    apply eqb_neq. now apply negb_true_iff.
  - intros (i & Hi & Hne) Hnil.
    rewrite unequalIndices_nil in Hnil. now apply Hne, Hnil.
Qed.

(** What [verifySteps] returns when the file exists, branch by branch. *)
Lemma verifySteps_present (exp : list Step) :
  fileExists fs testFile = true ->
  let act := findStepsInTest fs testFile in
  verifySteps fs testFile exp =
  if negb (length exp =? length act) then
    mkResult false (Some StepCountMismatch) exp act
             (Some (skipn (length act) (map trim exp)))
             (Some (skipn (length exp) (map trim act))) None
  else
    match map (mismatchAt exp act) (unequalIndices exp act) with
    | _ :: _ =>
        mkResult false (Some StepMismatch) exp act None None
                 (Some (map (mismatchAt exp act) (unequalIndices exp act)))
    | [] => mkResult true None exp act None None None
    end.
Proof.
  intros Hex act. unfold verifySteps. rewrite Hex. simpl negb. cbv iota.
  fold act. cbv zeta. rewrite !length_map.
  destruct (length exp =? length act) eqn:Hlen; simpl negb; cbv iota.
  - apply Nat.eqb_eq in Hlen.
    pose proof (mismatch_loop exp act Hlen) as L. cbv zeta in L.
    rewrite length_map in L. rewrite L. reflexivity.
  - pose proof (missing_loop (map trim exp) (map trim act)) as M.
    pose proof (extra_loop (map trim exp) (map trim act)) as X.
    rewrite !length_map in M, X. rewrite M, X. reflexivity.
Qed.

End Verifier.

(** ** Missing file *)

(** C3. For every expected step list, when no file exists at the path of
    the implementation file, [verifySteps] returns [passed = false] with
    reason [missing-file], [missingSteps] equal to the whole expected list
    and [actualSteps] empty. *)
Theorem verifySteps_missing_file (fs : FileSystem) (testFile : str) (exp : list Step) :
  fileExists fs testFile = false ->
  let r := verifySteps fs testFile exp in
  passed r = false /\ reason r = Some MissingFile /\
  missingSteps r = Some exp /\ actualSteps r = [] /\ expectedSteps r = exp.
Proof.
  intros Hex. unfold verifySteps. rewrite Hex. simpl. repeat split.
Qed.

Lemma verifySteps_missing_file_witness :
  let r := verifySteps Fixtures.fsAuth (lit "a/unit/other.ts") Fixtures.expectTwo in
  passed r = false /\ reason r = Some MissingFile /\
  missingSteps r = Some Fixtures.expectTwo /\ actualSteps r = [] /\
  expectedSteps r = Fixtures.expectTwo.
Proof.
  apply (verifySteps_missing_file Fixtures.fsAuth (lit "a/unit/other.ts")
           Fixtures.expectTwo).
  reflexivity.
Defined.

(** ** Equal lengths *)

(** C1. For expected and actual step lists of equal length [L],
    [verifySteps] returns reason [step-mismatch] exactly when some index
    [i < L] has [expected[i]] different from [actual[i]] after trimming
    both, it then reports one entry (index, expected, actual) per unequal
    index, in increasing order of the index; and it returns [passed = true],
    with no reason, exactly when every index matches after trimming. *)
Theorem verifySteps_equal_length (fs : FileSystem) (testFile : str)
    (exp act : list Step) :
  fileExists fs testFile = true ->
  findStepsInTest fs testFile = act ->
  length exp = length act ->
  let r := verifySteps fs testFile exp in
  (reason r = Some StepMismatch <->
   exists i, i < length exp /\ trim (nth i exp []) <> trim (nth i act [])) /\
  (reason r = Some StepMismatch ->
   mismatchedSteps r = Some (map (mismatchAt exp act) (unequalIndices exp act))) /\
  (passed r = true <->
   forall i, i < length exp -> trim (nth i exp []) = trim (nth i act [])) /\
  (passed r = true -> reason r = None /\ mismatchedSteps r = None).
Proof.
  intros Hex Hact Hlen r. subst r.
  rewrite (verifySteps_present fs testFile exp Hex). cbv zeta. rewrite Hact.
  apply Nat.eqb_eq in Hlen. rewrite Hlen. simpl negb. cbv iota.
  rewrite <- unequalIndices_cons, <- unequalIndices_nil.
  destruct (unequalIndices exp act) as [|i l]; simpl.
  - repeat split; try congruence; try discriminate.
  - repeat split; try congruence; try discriminate.
Qed.

Lemma verifySteps_equal_length_witness :
  let r := verifySteps Fixtures.fsAuth Fixtures.authTest Fixtures.expectTwo in
  reason r = Some StepMismatch /\
  mismatchedSteps r = Some [mkMismatch (lit "Verify hash") (lit "Check user") 1].
Proof.
  destruct (verifySteps_equal_length Fixtures.fsAuth Fixtures.authTest
              Fixtures.expectTwo
              (findStepsInTest Fixtures.fsAuth Fixtures.authTest)
              eq_refl eq_refl eq_refl) as (Hiff & Hms & _).
  assert (Hr : reason (verifySteps Fixtures.fsAuth Fixtures.authTest Fixtures.expectTwo)
               = Some StepMismatch).
  { apply Hiff. exists 1. split; [simpl; lia | vm_compute; discriminate]. }
  split; [exact Hr | exact (Hms Hr)].
Defined.

(** ** Unequal lengths *)

(** C2, as the code has it. For expected and actual step lists of unequal
    length, [verifySteps] returns reason [step-count-mismatch];
    [missingSteps] holds the trimmed expected entries at the indices from
    [length actual] on, and [extraSteps] the trimmed actual entries at the
    indices from [length expected] on: a positional tail, never an edit
    set. *)
Theorem verifySteps_count_mismatch (fs : FileSystem) (testFile : str)
    (exp act : list Step) :
  fileExists fs testFile = true ->
  findStepsInTest fs testFile = act ->
  length exp <> length act ->
  let r := verifySteps fs testFile exp in
  passed r = false /\ reason r = Some StepCountMismatch /\
  missingSteps r = Some (map trim (skipn (length act) exp)) /\
  extraSteps r = Some (map trim (skipn (length exp) act)) /\
  expectedSteps r = exp /\ actualSteps r = act.
Proof.
  intros Hex Hact Hlen r. subst r.
  rewrite (verifySteps_present fs testFile exp Hex). cbv zeta. rewrite Hact.
  apply Nat.eqb_neq in Hlen. rewrite Hlen. simpl.
  rewrite !skipn_map. repeat split.
Qed.

Lemma verifySteps_count_mismatch_witness :
  let r := verifySteps Fixtures.fsAuth Fixtures.authTest Fixtures.expectThree in
  passed r = false /\ reason r = Some StepCountMismatch /\
  missingSteps r = Some [lit "Verify hash"] /\
  extraSteps r = Some [] /\
  expectedSteps r = Fixtures.expectThree /\
  actualSteps r = [lit "Validate input"; lit "Check user"].
Proof.
  apply (verifySteps_count_mismatch Fixtures.fsAuth Fixtures.authTest
           Fixtures.expectThree [lit "Validate input"; lit "Check user"]).
  - reflexivity.
  - reflexivity.
  - simpl. lia.
Defined.

(** C2, as it is stated, fails: the entries of [missingSteps] and of
    [extraSteps] are the trimmed steps, not the entries of the two lists
    themselves.  With three expected steps against two markers the missing
    step is reported without the blanks of the expected entry; with one
    expected step against two markers the extra step is reported without
    the blanks of the marker. *)
Lemma verifySteps_count_mismatch_raw_tail_fails :
  (fileExists Fixtures.fsAuth Fixtures.authTest = true /\
   length Fixtures.expectThree
     <> length (findStepsInTest Fixtures.fsAuth Fixtures.authTest) /\
   missingSteps (verifySteps Fixtures.fsAuth Fixtures.authTest Fixtures.expectThree)
     <> Some (skipn (length (findStepsInTest Fixtures.fsAuth Fixtures.authTest))
                    Fixtures.expectThree)) /\
  (fileExists Fixtures.fsPadded Fixtures.authTest = true /\
   length Fixtures.expectOne
     <> length (findStepsInTest Fixtures.fsPadded Fixtures.authTest) /\
   extraSteps (verifySteps Fixtures.fsPadded Fixtures.authTest Fixtures.expectOne)
     <> Some (skipn (length Fixtures.expectOne)
                    (findStepsInTest Fixtures.fsPadded Fixtures.authTest))).
Proof.
  split; (split; [reflexivity | split; [vm_compute; lia | vm_compute; discriminate]]).
Qed.

(* ================================================================== *)
(** * The flat step extractor *)
(* ================================================================== *)

Lemma capturePlus_nonempty (s cap : str) :
  capturePlus s = Some cap -> cap <> [].
Proof.
  destruct s as [|c s']; simpl; [discriminate|].
  destruct (isDot c); [|discriminate].
  destruct (captureStar s'); [|discriminate].
  intros [= <-]. discriminate.
Qed.

Lemma matchStep_nonempty (line cap : str) :
  matchStep line = Some cap -> cap <> [].
Proof.
  unfold matchStep.
  destruct (commentLeader _) as [r|]; [|discriminate].
  destruct (stripPrefix _ _) as [quoted|]; [|discriminate].
  apply capturePlus_nonempty.
Qed.

(** White space in front of a unit that is no white space is all that
    [dropWhile isWhiteSpace] removes. *)
Lemma dropWhile_space_app (ws rest : str) :
  Forall (fun c => isWhiteSpace c = true) ws ->
  dropWhile isWhiteSpace (ws ++ rest) = dropWhile isWhiteSpace rest.
Proof.
  induction 1 as [|c ws Hc _ IH]; simpl; [reflexivity|].
  now rewrite Hc.
Qed.

Lemma stepsOfContent_nonempty (content : str) :
  Forall (fun s => s <> []) (stepsOfContent content).
Proof.
  unfold stepsOfContent.
  assert (G : forall lines acc,
             Forall (fun s : str => s <> []) acc ->
             Forall (fun s : str => s <> [])
               (fold_left
                  (fun steps line =>
                     match matchStep line with
                     | Some group2 => steps ++ [orEmpty (Some group2)]
                     | None => steps
                     end) lines acc)).
  { induction lines as [|line lines IH]; intros acc Hacc; simpl; [exact Hacc|].
    apply IH. destruct (matchStep line) as [cap|] eqn:E; [|exact Hacc].
    apply Forall_app. split; [exact Hacc|].
    constructor; [|constructor]. simpl. now apply matchStep_nonempty with line. }
  apply G. constructor.
Qed.

(** C10. The flat step extractor never yields an empty step: every
    extracted step holds at least one unit before trimming, for every
    file tree and path.  A marker line with nothing between the quotes,
    after either comment leader and with any white space before the leader
    and before the keyword, does not match the marker expression; such a
    line is skipped and the markers around it are still extracted. *)
Theorem findStepsInTest_no_empty_step :
  (forall (fs : FileSystem) (filePath : str) (s : Step),
      In s (findStepsInTest fs filePath) -> 1 <= length s) /\
  (forall ws1 ws2 : str,
      Forall (fun c => isWhiteSpace c = true) ws1 ->
      Forall (fun c => isWhiteSpace c = true) ws2 ->
      matchStep (ws1 ++ lit "//" ++ ws2 ++ lit "step(" ++ [dquote; dquote; rparen]) = None /\
      matchStep (ws1 ++ lit "#" ++ ws2 ++ lit "step(" ++ [dquote; dquote; rparen]) = None) /\
  matchStep (Fixtures.slashMarker []) = None /\
  matchStep (Fixtures.hashMarker []) = None /\
  stepsOfContent
    (Fixtures.text [Fixtures.slashMarker (lit "a"); Fixtures.slashMarker [];
                    Fixtures.hashMarker []; Fixtures.hashMarker (lit "b")])
  = [lit "a"; lit "b"].
Proof.
  split; [|split; [|repeat split; reflexivity]].
  - intros fs filePath s Hin.
    assert (Hne : s <> []).
    { unfold findStepsInTest in Hin.
      destruct (negb (fileExists fs filePath)); [destruct Hin|].
      destruct (readFile fs filePath) as [content|]; [|destruct Hin].
      pose proof (stepsOfContent_nonempty content) as F.
      rewrite Forall_forall in F. now apply F. }
    destruct s; [congruence | simpl; lia].
  - intros ws1 ws2 H1 H2. split.
    + unfold matchStep. rewrite dropWhile_space_app by exact H1.
      change (dropWhile isWhiteSpace (lit "//" ++ ws2 ++ lit "step(" ++ [dquote; dquote; rparen]))
        with (lit "//" ++ ws2 ++ lit "step(" ++ [dquote; dquote; rparen]).
      change (commentLeader (lit "//" ++ ws2 ++ lit "step(" ++ [dquote; dquote; rparen]))
        with (Some (ws2 ++ lit "step(" ++ [dquote; dquote; rparen])).
      cbv iota beta. rewrite dropWhile_space_app by exact H2. reflexivity.
    + unfold matchStep. rewrite dropWhile_space_app by exact H1.
      change (dropWhile isWhiteSpace (lit "#" ++ ws2 ++ lit "step(" ++ [dquote; dquote; rparen]))
        with (lit "#" ++ ws2 ++ lit "step(" ++ [dquote; dquote; rparen]).
      change (commentLeader (lit "#" ++ ws2 ++ lit "step(" ++ [dquote; dquote; rparen]))
        with (Some (ws2 ++ lit "step(" ++ [dquote; dquote; rparen])).
      cbv iota beta. rewrite dropWhile_space_app by exact H2. reflexivity.
Qed.

Lemma findStepsInTest_no_empty_step_witness :
  1 <= length (lit "Check user") /\
  matchStep (lit "  " ++ lit "//" ++ lit " " ++ lit "step(" ++ [dquote; dquote; rparen]) = None.
Proof.
  destruct findStepsInTest_no_empty_step as (Hlen & Hskip & _).
  split.
  - apply (Hlen Fixtures.fsAuth Fixtures.authTest (lit "Check user")).
    vm_compute. right. left. reflexivity.
  - apply (Hskip (lit "  ") (lit " ")).
    + repeat constructor.
    + repeat constructor.
Defined.

(* ================================================================== *)
(** * Trimming and splitting *)
(* ================================================================== *)

Lemma dropWhile_stable (p : N -> bool) (s : str) :
  dropWhile p (dropWhile p s) = dropWhile p s.
Proof.
  induction s as [|c s IH]; simpl; [reflexivity|].
  destruct (p c) eqn:E; [exact IH | simpl; now rewrite E].
Qed.

Lemma dropWhile_app_stop (p : N -> bool) (s : str) (c : N) :
  p c = false -> dropWhile p (s ++ [c]) = dropWhile p s ++ [c].
Proof.
  intros Hc. induction s as [|x s IH]; simpl; [now rewrite Hc|].
  destruct (p x); [exact IH | reflexivity].
Qed.

Lemma trimEnd_cons (c : N) (s : str) :
  isWhiteSpace c = false -> trimEnd (c :: s) = c :: trimEnd s.
Proof.
  intros Hc. unfold trimEnd. simpl.
  rewrite dropWhile_app_stop by exact Hc.
  now rewrite rev_app_distr.
Qed.

Lemma trimEnd_stable (s : str) : trimEnd (trimEnd s) = trimEnd s.
Proof.
  unfold trimEnd. now rewrite rev_involutive, dropWhile_stable.
Qed.

(** [trim] of a trimmed string changes nothing. *)
Lemma trim_idempotent (s : str) : trim (trim s) = trim s.
Proof.
  unfold trim, JS.trim, trimStart.
  assert (H : dropWhile isWhiteSpace (trimEnd (dropWhile isWhiteSpace s))
              = trimEnd (dropWhile isWhiteSpace s)).
  { induction s as [|c s IH]; simpl; [reflexivity|].
    destruct (isWhiteSpace c) eqn:E; [exact IH|].
    rewrite trimEnd_cons by exact E. simpl. now rewrite E. }
  rewrite H. apply trimEnd_stable.
Qed.

Lemma trim_space_left (ws s : str) :
  Forall (fun c => isWhiteSpace c = true) ws -> trim (ws ++ s) = trim s.
Proof.
  intros H. unfold trim, JS.trim, trimStart. now rewrite dropWhile_space_app.
Qed.

Lemma trimEnd_space_right (s ws : str) :
  Forall (fun c => isWhiteSpace c = true) ws -> trimEnd (s ++ ws) = trimEnd s.
Proof.
  intros H. unfold trimEnd. rewrite rev_app_distr.
  rewrite dropWhile_space_app; [reflexivity|].
  apply Forall_rev. exact H.
Qed.

Lemma trim_space_right (s ws : str) :
  Forall (fun c => isWhiteSpace c = true) ws -> trim (s ++ ws) = trim s.
Proof.
  intros H. unfold trim, JS.trim, trimStart.
  induction s as [|c s IH]; simpl.
  - replace (dropWhile isWhiteSpace ws) with (@nil N); [reflexivity|].
    symmetry. rewrite <- (app_nil_r ws). now rewrite dropWhile_space_app.
  - destruct (isWhiteSpace c); [exact IH|].
    exact (trimEnd_space_right (c :: s) ws H).
Qed.

(** The two ends of a string around its trimmed text are white space. *)
Lemma dropWhile_split (p : N -> bool) (s : str) :
  exists a, Forall (fun c => p c = true) a /\ s = a ++ dropWhile p s.
Proof.
  induction s as [|c s (a & Ha & E)]; simpl.
  - exists []. split; [constructor | reflexivity].
  - destruct (p c) eqn:Hc.
    + exists (c :: a). split; [now constructor | simpl; now f_equal].
    + exists []. split; [constructor | reflexivity].
Qed.

Lemma trim_decompose (s : str) :
  exists a b, Forall (fun c => isWhiteSpace c = true) a /\
              Forall (fun c => isWhiteSpace c = true) b /\
              s = a ++ trim s ++ b.
Proof.
  destruct (dropWhile_split isWhiteSpace s) as (a & Ha & Ea).
  destruct (dropWhile_split isWhiteSpace (rev (dropWhile isWhiteSpace s)))
    as (b & Hb & Eb).
  exists a, (rev b). split; [exact Ha|]. split; [now apply Forall_rev|].
  unfold trim, JS.trim, trimStart, trimEnd.
  rewrite <- rev_app_distr, <- Eb, rev_involutive. exact Ea.
Qed.

Lemma space_not_comma (ws : str) :
  Forall (fun c => isWhiteSpace c = true) ws ->
  Forall (fun c => (c =? comma)%N = false) ws.
Proof.
  intros H. eapply Forall_impl; [|exact H]. intros c Hc. cbv beta in *.
  destruct (c =? comma)%N eqn:E; [|reflexivity].
  apply N.eqb_eq in E. subst c. discriminate Hc.
Qed.

Lemma split_not_nil (sep : N) (s : str) : split sep s <> [].
Proof.
  destruct s as [|c s]; simpl; [discriminate|].
  destruct (c =? sep)%N; [discriminate|].
  destruct (split sep s); discriminate.
Qed.

(** A prefix without the separator stays in front of the first piece. *)
Lemma split_app_left (sep : N) (a s : str) :
  Forall (fun c => (c =? sep)%N = false) a ->
  split sep (a ++ s) = (a ++ hd [] (split sep s)) :: tl (split sep s).
Proof.
  induction 1 as [|c a Hc _ IH]; simpl.
  - pose proof (split_not_nil sep s). now destruct (split sep s).
  - rewrite Hc, IH. reflexivity.
Qed.

(** A suffix without the separator stays behind the last piece. *)
Lemma split_app_right (sep : N) (s b : str) :
  Forall (fun c => (c =? sep)%N = false) b ->
  split sep (s ++ b) =
  removelast (split sep s) ++ [last (split sep s) [] ++ b].
Proof.
  intros Hb. induction s as [|c s IH].
  - simpl. rewrite <- (app_nil_r b) at 1.
    rewrite split_app_left by exact Hb. simpl. now rewrite app_nil_r.
  - cbn [app split]. destruct (c =? sep)%N.
    + rewrite IH. pose proof (split_not_nil sep s).
      destruct (split sep s) as [|h t]; [congruence|]. reflexivity.
    + rewrite IH. pose proof (split_not_nil sep s).
      destruct (split sep s) as [|h t]; [congruence|].
      destruct t as [|h' t']; reflexivity.
Qed.

Lemma map_trim_split_left (a s : str) :
  Forall (fun c => isWhiteSpace c = true) a ->
  map trim (split comma (a ++ s)) = map trim (split comma s).
Proof.
  intros Ha. rewrite split_app_left by (now apply space_not_comma).
  pose proof (split_not_nil comma s).
  destruct (split comma s) as [|h t]; [congruence|]. simpl.
  now rewrite trim_space_left.
Qed.

Lemma map_trim_split_right (s b : str) :
  Forall (fun c => isWhiteSpace c = true) b ->
  map trim (split comma (s ++ b)) = map trim (split comma s).
Proof.
  intros Hb. rewrite split_app_right by (now apply space_not_comma).
  pose proof (split_not_nil comma s) as Hne.
  rewrite (app_removelast_last [] Hne) at 3.
  rewrite !map_app. simpl. now rewrite trim_space_right.
Qed.

(** Trimming the whole list first does not change its trimmed entries. *)
Lemma levelEntries_trim (csv : str) :
  levelEntries (trim csv) = levelEntries csv.
Proof.
  unfold levelEntries.
  destruct (trim_decompose csv) as (a & b & Ha & Hb & E).
  rewrite E at 2.
  rewrite map_trim_split_left by exact Ha.
  now rewrite map_trim_split_right by exact Hb.
Qed.

(* ================================================================== *)
(** * The scenario parser *)
(* ================================================================== *)

Lemma stripPrefix_app (p rest : str) : stripPrefix p (p ++ rest) = Some rest.
Proof.
  induction p as [|x p IH]; simpl; [now destruct rest|].
  now rewrite N.eqb_refl.
Qed.

(** What the levels expression captures: the white space after the colon
    is skipped, the text up to the first line terminator is the group. *)
Lemma matchLevels_capture (ws csv rest : str) :
  Forall (fun c => isWhiteSpace c = true) ws ->
  dropWhile isWhiteSpace (csv ++ rest) = csv ++ rest ->
  takeWhile isDot (csv ++ rest) = csv ->
  matchLevels (lit "levels:" ++ ws ++ csv ++ rest) = Some csv.
Proof.
  intros Hws Hdrop Htake. unfold matchLevels.
  rewrite stripPrefix_app, dropWhile_space_app by exact Hws.
  now rewrite Hdrop, Htake.
Qed.

(** A levels line is not read while no scenario is open. *)
Lemma levels_line_without_scenario (st : ParseState) (rest : str) :
  currentScenario st = None ->
  parseLine st (lit "levels:" ++ rest) = st.
Proof.
  intros Hcur. unfold parseLine.
  change (matchH2 (lit "levels:" ++ rest)) with (@None str).
  rewrite Hcur.
  change (startsWith fenceSpecguard (lit "levels:" ++ rest)) with false.
  change (startsWith fence (lit "levels:" ++ rest)) with false.
  simpl. now rewrite andb_false_r.
Qed.

(** C7, as the code has it. While a scenario is open, a line that starts
    with [levels:], followed by white space [ws] and a comma-separated
    list [csv], sets the levels of that scenario to the entries of the
    list: split on the comma, each entry trimmed, the empty entries
    dropped, in the order written.  Repeated entries are kept; nothing
    else of the state changes.  Here [ws] is all the white space after the
    colon and [csv] is the text from there to the end of the line or to
    its first line terminator, which is what the two equations on
    [csv ++ rest] say. *)
Theorem levels_line_sets_levels (st : ParseState) (cur : Scenario)
    (ws csv rest : str) :
  currentScenario st = Some cur ->
  Forall (fun c => isWhiteSpace c = true) ws ->
  dropWhile isWhiteSpace (csv ++ rest) = csv ++ rest ->
  takeWhile isDot (csv ++ rest) = csv ->
  parseLine st (lit "levels:" ++ ws ++ csv ++ rest) =
  mkParseState (scenarios st)
               (Some (mkScenario (name cur) (levelEntries csv) (steps cur)))
               (inCodeblock st) (currentSteps st).
Proof.
  intros Hcur Hws Hdrop Htake. unfold parseLine.
  change (matchH2 (lit "levels:" ++ ws ++ csv ++ rest)) with (@None str).
  rewrite Hcur, matchLevels_capture by assumption.
  unfold parseLevels. simpl orEmpty.
  change (filter truthy (map trim (split comma (trim csv))))
    with (levelEntries (trim csv)).
  now rewrite levelEntries_trim.
Qed.

Lemma levels_line_sets_levels_witness :
  parseLine Fixtures.openState
            (lit "levels:" ++ lit " " ++ lit "unit, e2e ,, unit" ++ [13%N]) =
  mkParseState [] (Some (mkScenario (lit "Login")
                                    [lit "unit"; lit "e2e"; lit "unit"] []))
               false [].
Proof.
  apply (levels_line_sets_levels Fixtures.openState
           (mkScenario (lit "Login") [] [])
           (lit " ") (lit "unit, e2e ,, unit") [13%N]).
  - reflexivity.
  - repeat constructor.
  - reflexivity.
  - reflexivity.
Defined.

(** C7, as it is stated, fails: the parser does not remove repeated
    entries.  A scenario whose levels line names [unit] twice is stored
    with [unit] twice. *)
Lemma parsed_levels_keep_duplicates :
  parseScenarios Fixtures.specRepeatedLevel =
    [mkScenario (lit "Login") [lit "unit"; lit "e2e"; lit "unit"]
                [lit "Validate input"]] /\
  ~ Forall (fun sc => NoDup (levels sc)) (parseScenarios Fixtures.specRepeatedLevel).
Proof.
  split; [reflexivity|].
  intros H. apply Forall_inv in H. simpl in H.
  apply NoDup_cons_iff in H as [Hin _]. apply Hin. right. left. reflexivity.
Qed.

(** ** Empty scenarios *)

Lemma saveScenario_closeScenario (st ref : ParseState) :
  inStep st ref -> saveScenario st = filter hasSteps (closeScenario ref).
Proof.
  intros (Hc & _ & Hs & Hl). unfold saveScenario, closeScenario.
  rewrite Hc, Hs, Hl.
  destruct (currentScenario ref) as [cur|]; [|now destruct (currentSteps ref)].
  rewrite filter_app. simpl. unfold hasSteps at 2. simpl.
  destruct (currentSteps ref); [now rewrite app_nil_r | reflexivity].
Qed.

Lemma parseLine_scenarios (st : ParseState) (line : str) :
  matchH2 line = None -> scenarios (parseLine st line) = scenarios st.
Proof.
  intros H. unfold parseLine. rewrite H.
  destruct (currentScenario st) as [cur|], (matchLevels line) as [cap|];
    try reflexivity;
    destruct (startsWith fenceSpecguard line); try reflexivity;
    destruct (startsWith fence line && inCodeblock st); try reflexivity;
    match goal with |- context [if ?b then _ else _] => destruct b end;
    reflexivity.
Qed.

Lemma parseLine_inStep (st ref : ParseState) (line : str) :
  inStep st ref -> inStep (parseLine st line) (recordLine ref line).
Proof.
  intros H. pose proof (saveScenario_closeScenario st ref H) as Hsave.
  unfold recordLine. destruct (matchH2 line) as [h2|] eqn:E.
  - unfold parseLine. rewrite E. unfold inStep. simpl. auto.
  - unfold inStep. rewrite !parseLine_scenarios by exact E.
    destruct st as [scs cur blk pend], ref as [scs' cur' blk' pend'].
    destruct H as (Hc & Hb & Hs & Hl). simpl in Hc, Hb, Hs, Hl. subst.
    unfold parseLine. rewrite E. simpl.
    destruct cur' as [cur|], (matchLevels line) as [cap|];
      simpl; auto;
      destruct (startsWith fenceSpecguard line); simpl; auto;
      destruct (startsWith fence line && blk'); simpl; auto;
      match goal with |- context [if ?b then _ else _] => destruct b end;
      simpl; auto.
Qed.

Lemma fold_inStep (lines : list str) (st ref : ParseState) :
  inStep st ref ->
  inStep (fold_left parseLine lines st) (fold_left recordLine lines ref).
Proof.
  revert st ref; induction lines as [|line lines IH]; intros st ref H; simpl;
    [exact H|].
  apply IH, parseLine_inStep, H.
Qed.

Lemma parseScenarios_filter (content : str) :
  parseScenarios content = filter hasSteps (openedScenarios content).
Proof.
  unfold parseScenarios, openedScenarios.
  apply saveScenario_closeScenario, fold_inStep.
  repeat split.
Qed.

(** C8, as the code has it. The scenarios that the parser returns are, in
    the order of their headings, the opened scenarios that have at least
    one step, the last open one at the end of the input included; a
    scenario without steps is never returned.  The parser drops it without
    a warning: [processSpecguardFile] logs a warning only when the parser
    returns no scenario at all, and then it is one warning for the file. *)
Theorem parser_keeps_scenarios_with_steps :
  (forall content : str,
      parseScenarios content = filter hasSteps (openedScenarios content)) /\
  (forall (content : str) (sc : Scenario),
      In sc (parseScenarios content) -> steps sc <> []) /\
  (forall (content : str) (sc : Scenario),
      In sc (openedScenarios content) -> steps sc <> [] ->
      In sc (parseScenarios content)) /\
  (forall (fs : FileSystem) (specguardFile baseDir folder content : str),
      fs specguardFile = Some content ->
      exists rs ws,
        processSpecguardFile fs specguardFile baseDir folder = Some (rs, ws) /\
        ws = match parseScenarios content with
             | [] => [NoScenariosDefined specguardFile]
             | _ :: _ => []
             end).
Proof.
  split; [exact parseScenarios_filter|]. split; [|split].
  - intros content sc Hin. rewrite parseScenarios_filter in Hin.
    apply filter_In in Hin as [_ Hs]. unfold hasSteps in Hs.
    destruct (steps sc); [discriminate | discriminate].
  - intros content sc Hin Hne. rewrite parseScenarios_filter.
    apply filter_In. split; [exact Hin|]. unfold hasSteps.
    destruct (steps sc); [congruence | reflexivity].
  - intros fs specguardFile baseDir folder content Hfs.
    unfold processSpecguardFile, extractScenarios, readFile. rewrite Hfs.
    destruct (parseScenarios content); eexists; eexists; split; reflexivity.
Qed.

Lemma parser_keeps_scenarios_with_steps_witness :
  parseScenarios Fixtures.specWithEmpty =
    [mkScenario (lit "First") [lit "unit"] [lit "Validate input"];
     mkScenario (lit "Last") [lit "unit"] [lit "Check user"]] /\
  In (mkScenario (lit "Last") [lit "unit"] [lit "Check user"])
     (parseScenarios Fixtures.specWithEmpty).
Proof.
  destruct parser_keeps_scenarios_with_steps as (Hf & _ & Hkeep & _).
  split.
  - rewrite (Hf Fixtures.specWithEmpty). reflexivity.
  - apply (Hkeep Fixtures.specWithEmpty).
    + vm_compute. right. right. left. reflexivity.
    + discriminate.
Defined.

(** C8, as it is stated, fails in its warning: the scenario [Empty] of the
    sample file is opened, has no step and is dropped by the parser, and
    the run over the file logs no warning. *)
Lemma dropped_scenario_without_warning :
  In (mkScenario (lit "Empty") [lit "unit"] [])
     (openedScenarios Fixtures.specWithEmpty) /\
  ~ In (mkScenario (lit "Empty") [lit "unit"] [])
       (parseScenarios Fixtures.specWithEmpty) /\
  exists rs,
    processSpecguardFile Fixtures.fsWithEmpty Fixtures.authSpec (lit "a")
                         (lit "specguard") = Some (rs, []).
Proof.
  split; [vm_compute; right; left; reflexivity|].
  split.
  - vm_compute. intros [H|[H|[]]]; discriminate H.
  - eexists. vm_compute. reflexivity.
Qed.

(* ================================================================== *)
(** * The orchestrator: levels and expected steps *)
(* ================================================================== *)

Lemma includes_hasLevel (sc : Scenario) (lvl : TestLevel) :
  includes (levels sc) lvl = hasLevel lvl sc.
Proof.
  unfold includes, hasLevel.
  destruct (in_dec (list_eq_dec N.eq_dec) lvl (levels sc)) as [Hin|Hnin].
  - apply existsb_exists. exists lvl. split; [exact Hin | apply eqb_refl].
  - destruct (existsb (eqb lvl) (levels sc)) eqn:E; [|reflexivity].
    apply existsb_exists in E as (x & Hx & Heq).
    apply eqb_eq in Heq. subst x. contradiction.
Qed.

Lemma includes_In (a : list str) (x : str) : includes a x = true <-> In x a.
Proof.
  unfold includes. rewrite existsb_exists. split.
  - intros (y & Hy & E). apply eqb_eq in E. now subst.
  - intros H. exists x. split; [exact H | apply eqb_refl].
Qed.

(** The collecting loop is the concatenation over the scenarios of the
    level, in the order of the scenarios. *)
Lemma allStepsForLevel_concat (scs : list Scenario) (lvl : TestLevel) :
  allStepsForLevel scs lvl = flat_map steps (filter (hasLevel lvl) scs).
Proof.
  unfold allStepsForLevel.
  assert (G : forall acc,
             fold_left
               (fun acc sc => if includes (levels sc) lvl then acc ++ steps sc else acc)
               scs acc
             = acc ++ flat_map steps (filter (hasLevel lvl) scs)).
  { induction scs as [|sc scs IH]; intros acc; simpl.
    - now rewrite app_nil_r.
    - rewrite IH, includes_hasLevel.
      destruct (hasLevel lvl sc); simpl; [now rewrite app_assoc | reflexivity]. }
  apply G.
Qed.

Lemma verifySteps_expectedSteps (fs : FileSystem) (path : str) (exp : list Step) :
  expectedSteps (verifySteps fs path exp) = exp.
Proof.
  unfold verifySteps.
  destruct (negb (fileExists fs path)); [reflexivity|]. cbv zeta.
  destruct (negb _); [reflexivity|].
  destruct (forRange _ _ _ _); reflexivity.
Qed.

Lemma setAdd_In (s : list str) (x y : str) :
  In y (setAdd s x) <-> In y s \/ y = x.
Proof.
  unfold setAdd. destruct (includes s x) eqn:E.
  - apply includes_In in E. split; [now left | intros [H| ->]; assumption].
  - rewrite in_app_iff. simpl. intuition congruence.
Qed.

Lemma setAdd_NoDup (s : list str) (x : str) : NoDup s -> NoDup (setAdd s x).
Proof.
  intros H. unfold setAdd. destruct (includes s x) eqn:E; [exact H|].
  apply NoDup_app; [exact H | repeat constructor; intros [] |].
  intros y Hy [Hxy|[]]. subst y.
  assert (includes s x = true) by (now apply includes_In). congruence.
Qed.

(** The set of levels of a file: its members are the trimmed level
    entries of the scenarios, each once. *)
Lemma allLevels_spec (scs : list Scenario) :
  NoDup (allLevels scs) /\
  forall lvl, In lvl (allLevels scs) <->
              exists sc l, In sc scs /\ In l (levels sc) /\ lvl = trim l.
Proof.
  unfold allLevels.
  assert (Inner : forall ls acc,
             NoDup acc ->
             NoDup (fold_left (fun acc' level => setAdd acc' (trim level)) ls acc) /\
             forall lvl,
               In lvl (fold_left (fun acc' level => setAdd acc' (trim level)) ls acc)
               <-> In lvl acc \/ exists l, In l ls /\ lvl = trim l).
  { induction ls as [|l ls IH]; intros acc Hnd; simpl.
    - split; [exact Hnd|]. intros lvl. split; [now left|].
      intros [H|(l & [] & _)]. exact H.
    - destruct (IH (setAdd acc (trim l)) (setAdd_NoDup _ _ Hnd)) as [Hn Hi].
      split; [exact Hn|]. intros lvl. rewrite Hi, setAdd_In. split.
      + intros [[H|H]|(l' & Hl' & E)]; [now left | right | right].
        * exists l. split; [now left | exact H].
        * exists l'. split; [now right | exact E].
      + intros [H|(l' & [<-|Hl'] & E)]; [now left; left | now left; right |].
        right. exists l'. split; assumption. }
  assert (Outer : forall acc,
             NoDup acc ->
             NoDup (fold_left
                      (fun acc sc =>
                         fold_left (fun acc' level => setAdd acc' (trim level))
                                   (levels sc) acc) scs acc) /\
             forall lvl,
               In lvl (fold_left
                         (fun acc sc =>
                            fold_left (fun acc' level => setAdd acc' (trim level))
                                      (levels sc) acc) scs acc)
               <-> In lvl acc \/
                   exists sc l, In sc scs /\ In l (levels sc) /\ lvl = trim l).
  { induction scs as [|sc scs IH]; intros acc Hnd; simpl.
    - split; [exact Hnd|]. intros lvl. split; [now left|].
      intros [H|(sc & l & [] & _)]. exact H.
    - destruct (Inner (levels sc) acc Hnd) as [Hn1 Hi1].
      destruct (IH _ Hn1) as [Hn Hi]. split; [exact Hn|].
      intros lvl. rewrite Hi, Hi1. split.
      + intros [[H|(l & Hl & E)]|(sc' & l & Hsc & Hl & E)].
        * now left.
        * right. exists sc, l. repeat split; [now left | exact Hl | exact E].
        * right. exists sc', l. repeat split; [now right | exact Hl | exact E].
      + intros [H|(sc' & l & [<-|Hsc] & Hl & E)].
        * now left; left.
        * left; right. exists l. split; assumption.
        * right. exists sc', l. repeat split; assumption. }
  destruct (Outer [] (NoDup_nil _)) as [Hn Hi]. split; [exact Hn|].
  intros lvl. rewrite Hi. split; [intros [[]|H]; exact H | now right].
Qed.

Lemma allLevels_trimmed (scs : list Scenario) (lvl : TestLevel) :
  In lvl (allLevels scs) -> trim lvl = lvl.
Proof.
  intros H. apply (proj2 (allLevels_spec scs)) in H as (sc & l & _ & _ & ->).
  apply trim_idempotent.
Qed.

(** The results of a file with scenarios: one entry per level of the
    file, in the order of the set of levels, and no warning. *)
Lemma processSpecguardFile_results (fs : FileSystem)
    (specguardFile baseDir folder content : str) :
  fs specguardFile = Some content ->
  parseScenarios content <> [] ->
  processSpecguardFile fs specguardFile baseDir folder =
  Some (map (fun level =>
               snd (processLevel fs specguardFile baseDir
                      (relPathNoExt specguardFile folder)
                      (parseScenarios content) level))
            (allLevels (parseScenarios content)), []).
Proof.
  intros Hfs Hne. unfold processSpecguardFile, extractScenarios, readFile.
  rewrite Hfs. destruct (parseScenarios content); [congruence | reflexivity].
Qed.

(** C4. For every spec file and every level that is processed, the
    expected steps handed to the primary call of [verifySteps] are the
    concatenation, in the order in which the spec file declares its
    scenarios, of the steps of every scenario whose level list contains
    that level; the result of that call is what the entry of the level in
    the results of the file reports. *)
Theorem expected_steps_for_level (fs : FileSystem)
    (specguardFile baseDir folder content : str) (lvl : TestLevel) :
  fs specguardFile = Some content ->
  In lvl (allLevels (parseScenarios content)) ->
  let scs := parseScenarios content in
  let run := processLevel fs specguardFile baseDir
                          (relPathNoExt specguardFile folder) scs lvl in
  level (snd run) = lvl /\
  fst run = verifySteps fs (testFile (snd run))
                        (flat_map steps (filter (hasLevel lvl) scs)) /\
  expectedSteps (fst run) = flat_map steps (filter (hasLevel lvl) scs) /\
  filePassed (snd run) = passed (fst run) /\
  fileReason (snd run) = reason (fst run) /\
  exists rs ws,
    processSpecguardFile fs specguardFile baseDir folder = Some (rs, ws) /\
    In (snd run) rs.
Proof.
  intros Hfs Hin scs run.
  assert (Ht : trim lvl = lvl) by (now apply allLevels_trimmed with scs).
  assert (Hrun : fst run = verifySteps fs (testFile (snd run))
                             (flat_map steps (filter (hasLevel lvl) scs))).
  { subst run. unfold processLevel. cbv zeta. simpl fst. simpl snd. simpl testFile.
    now rewrite allStepsForLevel_concat, Ht. }
  split; [exact Ht|]. split; [exact Hrun|].
  split; [rewrite Hrun; apply verifySteps_expectedSteps|].
  split; [reflexivity|]. split; [reflexivity|].
  assert (Hne : parseScenarios content <> []).
  { intros E. rewrite E in Hin. destruct Hin. }
  rewrite (processSpecguardFile_results fs specguardFile baseDir folder content Hfs Hne).
  eexists; eexists. split; [reflexivity|].
  apply in_map_iff. exists lvl. split; [reflexivity | exact Hin].
Qed.

Lemma expected_steps_for_level_witness :
  expectedSteps
    (fst (processLevel Fixtures.fsWithEmpty Fixtures.authSpec (lit "a")
            (relPathNoExt Fixtures.authSpec (lit "specguard"))
            (parseScenarios Fixtures.specWithEmpty) (lit "unit")))
  = [lit "Validate input"; lit "Check user"].
Proof.
  destruct (expected_steps_for_level Fixtures.fsWithEmpty Fixtures.authSpec
              (lit "a") (lit "specguard") Fixtures.specWithEmpty (lit "unit"))
    as (_ & _ & Hexp & _).
  - reflexivity.
  - vm_compute. left. reflexivity.
  - rewrite Hexp. reflexivity.
Defined.

(* ================================================================== *)
(** * The orchestrator: path resolution *)
(* ================================================================== *)

Lemma firstExisting_found (fs : FileSystem) (base : str) (pre post : list str)
    (ext : str) :
  (forall e, In e pre -> fileExists fs (base ++ e) = false) ->
  fileExists fs (base ++ ext) = true ->
  firstExisting fs base (pre ++ ext :: post) = base ++ ext.
Proof.
  intros Hpre Hext. induction pre as [|e pre IH]; simpl.
  - now rewrite Hext.
  - rewrite (Hpre e) by (now left). apply IH.
    intros e' He'. apply Hpre. now right.
Qed.

Lemma firstExisting_none (fs : FileSystem) (base : str) (exts : list str) :
  (forall e, In e exts -> fileExists fs (base ++ e) = false) ->
  firstExisting fs base exts = [].
Proof.
  intros H. induction exts as [|e exts IH]; simpl; [reflexivity|].
  rewrite (H e) by (now left). apply IH. intros e' He'. apply H. now right.
Qed.

Lemma commonExtensions_nonempty (ext : str) :
  In ext commonExtensions -> ext <> [].
Proof.
  intros H. simpl in H.
  repeat (destruct H as [<-|H]; [discriminate|]). destruct H.
Qed.

Lemma truthy_app_r (a b : str) : b <> [] -> truthy (a ++ b) = true.
Proof.
  intros Hb. destruct a; simpl; [|reflexivity].
  destruct b; [congruence | reflexivity].
Qed.

(** C6. For every spec file and level, the candidate base is the join of
    the base directory, the level and the relative key; the suffixes of
    the fixed priority list are appended to it in order and the first
    path that exists is the one verified; when none exists the path is the
    candidate base followed by [.*] and nothing was found.  For the folder
    name [specguard] and the level [unit], the spec file
    [a/specguard/b.md] has the candidate base [a/unit/b]. *)
Theorem resolve_first_existing (fs : FileSystem)
    (specguardFile baseDir folder : str) (scs : list Scenario) (lvl : TestLevel) :
  let base := joinPath [baseDir; trim lvl; relPathNoExt specguardFile folder] in
  let run := processLevel fs specguardFile baseDir
                          (relPathNoExt specguardFile folder) scs lvl in
  testFile (snd run) = fst (resolveTestFile fs base) /\
  (forall pre ext post,
      commonExtensions = pre ++ ext :: post ->
      (forall e, In e pre -> fileExists fs (base ++ e) = false) ->
      fileExists fs (base ++ ext) = true ->
      resolveTestFile fs base = (base ++ ext, true)) /\
  ((forall e, In e commonExtensions -> fileExists fs (base ++ e) = false) ->
   resolveTestFile fs base = (base ++ lit ".*", false)) /\
  joinPath [baseDirOf (lit "a/specguard/b.md") (lit "specguard");
            trim (lit "unit");
            relPathNoExt (lit "a/specguard/b.md") (lit "specguard")]
  = lit "a/unit/b".
Proof.
  intros base run. split; [reflexivity|]. split; [|split; [|reflexivity]].
  - intros pre ext post Hexts Hpre Hext. unfold resolveTestFile.
    rewrite Hexts, (firstExisting_found fs base pre post ext Hpre Hext).
    rewrite truthy_app_r; [reflexivity|].
    apply commonExtensions_nonempty. rewrite Hexts.
    apply in_or_app. right. now left.
  - intros Hnone. unfold resolveTestFile.
    now rewrite (firstExisting_none fs base commonExtensions Hnone).
Qed.

Lemma resolve_first_existing_witness :
  resolveTestFile Fixtures.fsTwoCandidates (lit "a/unit/auth")
    = (lit "a/unit/auth.test.ts", true) /\
  resolveTestFile Fixtures.fsTwoCandidates (lit "a/e2e/auth")
    = (lit "a/e2e/auth.*", false).
Proof.
  split.
  - destruct (resolve_first_existing Fixtures.fsTwoCandidates Fixtures.authSpec
                (lit "a") (lit "specguard") [] (lit "unit")) as (_ & Hfound & _).
    apply (Hfound [lit ".ts"] (lit ".test.ts")
             (map lit [".spec.ts"; ".js"; ".test.js"; ".spec.js"; ".sh"; ".py"]%string)).
    + reflexivity.
    + intros e [<-|[]]. reflexivity.
    + reflexivity.
  - destruct (resolve_first_existing Fixtures.fsTwoCandidates Fixtures.authSpec
                (lit "a") (lit "specguard") [] (lit "e2e")) as (_ & _ & Hnone & _).
    apply Hnone. intros e He. simpl in He.
    repeat (destruct He as [<-|He]; [reflexivity|]). destruct He.
Defined.

(* ================================================================== *)
(** * The orchestrator: the breakdown per scenario *)
(* ================================================================== *)

Lemma fold_left_ext_in {A B : Type} (f g : A -> B -> A) (l : list B) (a : A) :
  (forall x s, In x l -> f s x = g s x) -> fold_left f l a = fold_left g l a.
Proof.
  revert a; induction l as [|x l IH]; intros a H; simpl; [reflexivity|].
  rewrite (H x a) by (now left). apply IH. intros y s Hy. apply H. now right.
Qed.

(** A loop that overwrites its state with one value wherever a test holds. *)
Lemma fold_left_overwrite {A B : Type} (p : B -> bool) (k : A) (l : list B) (a : A) :
  fold_left (fun s x => if p x then k else s) l a
  = if existsb p l then k else a.
Proof.
  revert a; induction l as [|x l IH]; intros a; simpl; [reflexivity|].
  rewrite IH. destruct (p x); simpl; [now destruct (existsb p l) | reflexivity].
Qed.

Lemma existsb_filter_nil {A : Type} (p : A -> bool) (l : list A) :
  existsb p l = match filter p l with [] => false | _ :: _ => true end.
Proof.
  induction l as [|x l IH]; simpl; [reflexivity|].
  destruct (p x); simpl; [reflexivity | exact IH].
Qed.

(** The inline loop on lists of equal length, where no actual step is
    blank after trimming. *)
Lemma checkScenario_equal_length (exp act : list Step) :
  length exp = length act ->
  Forall (fun a => trim a <> []) act ->
  checkScenario exp act =
  match unequalIndices exp act with
  | [] => (true, None)
  | _ :: _ => (false, Some StepMismatch)
  end.
Proof.
  intros Hlen Hact. unfold checkScenario, forRange. rewrite Nat.sub_0_r.
  rewrite (fold_left_ext_in _
             (fun st i =>
                if negb (eqb (trim (nth i exp [])) (trim (nth i act [])))
                then (false, Some StepMismatch) else st)).
  - rewrite fold_left_overwrite, existsb_filter_nil.
    fold (unequalIndices exp act). now destruct (unequalIndices exp act).
  - intros i st Hi. apply in_seq in Hi. cbv zeta.
    rewrite (nth_error_nth_default exp i []) by lia.
    rewrite (nth_error_nth_default act i []) by lia. simpl.
    assert (Ht : truthy (JS.trim (nth i act [])) = true).
    { rewrite Forall_forall in Hact.
      specialize (Hact (nth i act [])). unfold trim in Hact.
      destruct (JS.trim (nth i act [])); [|reflexivity].
      exfalso. apply Hact; [apply nth_In; lia | reflexivity]. }
    now rewrite Ht.
Qed.

(** The inline loop on a slice that is shorter than the expected list. *)
Lemma checkScenario_short (exp act : list Step) :
  length act < length exp ->
  checkScenario exp act = (false, Some StepCountMismatch).
Proof.
  intros Hlen. unfold checkScenario, forRange. rewrite Nat.sub_0_r.
  destruct (length exp) as [|n] eqn:E; [lia|].
  rewrite seq_S, fold_left_app. simpl.
  assert (He : exists e, nth_error exp n = Some e).
  { destruct (nth_error exp n) eqn:N; [eauto|].
    apply nth_error_None in N. lia. }
  destruct He as (e & ->).
  assert (Ha : nth_error act n = None) by (apply nth_error_None; lia).
  rewrite Ha. reflexivity.
Qed.

(** Where no marker of the file is blank after trimming, the inline loop
    classifies a slice as [verifySteps] classifies a file holding it. *)
Lemma checkScenario_agrees (fs : FileSystem) (path : str) (exp : list Step) :
  fileExists fs path = true ->
  length (findStepsInTest fs path) <= length exp ->
  Forall (fun a => trim a <> []) (findStepsInTest fs path) ->
  checkScenario exp (findStepsInTest fs path)
  = (passed (verifySteps fs path exp), reason (verifySteps fs path exp)).
Proof.
  intros Hex Hlen Hact.
  rewrite (verifySteps_present fs path exp Hex). cbv zeta.
  destruct (Nat.eq_dec (length exp) (length (findStepsInTest fs path))) as [E|E].
  - rewrite checkScenario_equal_length by assumption.
    apply Nat.eqb_eq in E. rewrite E. simpl.
    now destruct (unequalIndices exp (findStepsInTest fs path)).
  - rewrite checkScenario_short by lia.
    apply Nat.eqb_neq in E. rewrite E. reflexivity.
Qed.

(** C5 on the sample file.  The spec file has one scenario with the step
    [Validate input]; the test file has one marker whose quoted text is a
    single blank.  The primary call compares [Validate input] with the
    marker and reports [step-mismatch]; the breakdown of the scenario
    compares the same expected step with the same actual step, taken as
    the slice at offset 0, and reports [step-count-mismatch]. *)
Theorem breakdown_differs_on_blank_marker :
  let scs := parseScenarios Fixtures.specOneStep in
  let run := processLevel Fixtures.fsBlankMarker Fixtures.authSpec (lit "a")
                          (relPathNoExt Fixtures.authSpec (lit "specguard"))
                          scs (lit "unit") in
  scs = [mkScenario (lit "Login") [lit "unit"] [lit "Validate input"]] /\
  testFile (snd run) = Fixtures.authTest /\
  expectedSteps (fst run) = [lit "Validate input"] /\
  actualSteps (fst run) = [lit " "] /\
  passed (fst run) = false /\
  reason (fst run) = Some StepMismatch /\
  map (fun r => (expectedSteps (stepVerification r),
                 actualSteps (stepVerification r),
                 passed (stepVerification r),
                 reason (stepVerification r)))
      (scenarioResults (snd run))
  = [([lit "Validate input"], [lit " "], false, Some StepCountMismatch)] /\
  reason (verifySteps Fixtures.fsBlankMarker Fixtures.authTest [lit "Validate input"])
  = Some StepMismatch.
Proof.
  vm_compute. repeat split.
Qed.

(* ================================================================== *)
(** * The orchestrator: the summary *)
(* ================================================================== *)

Lemma filter_partition_length {A : Type} (p : A -> bool) (l : list A) :
  length (filter p l) + length (filter (fun x => negb (p x)) l) = length l.
Proof.
  induction l as [|x l IH]; simpl; [reflexivity|].
  destruct (p x); simpl; lia.
Qed.

(** The counts of the summary: every result is passed or failed, and the
    results are kept in the order in which they were appended. *)
Lemma summarize_counts (allResults : list TestFileResult) :
  totalFiles (summarize allResults)
  = passedFiles (summarize allResults) + failedFiles (summarize allResults) /\
  missingFiles (summarize allResults) <= totalFiles (summarize allResults) /\
  results (summarize allResults) = allResults.
Proof.
  unfold summarize. simpl. split; [|split; [|reflexivity]].
  - symmetry. apply filter_partition_length.
  - apply filter_length_le.
Qed.


(* ================================================================== *)
(** * More on the verifier *)
(* ================================================================== *)

Lemma nth_eq_all (a b : list str) :
  length a = length b ->
  (forall i, i < length a -> nth i a [] = nth i b []) -> a = b.
Proof.
  revert b; induction a as [|x a IH]; intros [|y b] Hlen H; simpl in Hlen;
    try discriminate; [reflexivity|].
  f_equal.
  - apply (H 0). simpl. lia.
  - apply IH; [lia|]. intros i Hi. apply (H (S i)). simpl. lia.
Qed.

Lemma unequalIndices_nil_map (exp act : list Step) :
  length exp = length act ->
  (unequalIndices exp act = [] <-> map trim exp = map trim act).
Proof.
  intros Hlen. rewrite unequalIndices_nil. split.
  - intros H. apply nth_eq_all; [now rewrite !length_map|].
    intros i Hi. rewrite length_map in Hi. rewrite !nth_map_trim. now apply H.
  - intros H i _. rewrite <- !nth_map_trim. now rewrite H.
Qed.

(** The verdict of [verifySteps]: the file exists and its markers are, in
    number, order and text after trimming, the expected steps. *)
Theorem verifySteps_passed_iff (fs : FileSystem) (testFile : str) (exp : list Step) :
  passed (verifySteps fs testFile exp) = true <->
  fileExists fs testFile = true /\
  map trim exp = map trim (findStepsInTest fs testFile).
Proof.
  destruct (fileExists fs testFile) eqn:Hex.
  - rewrite (verifySteps_present fs testFile exp Hex). cbv zeta.
    destruct (length exp =? length (findStepsInTest fs testFile)) eqn:Hlen; simpl negb;
      cbv iota.
    + apply Nat.eqb_eq in Hlen.
      rewrite <- (unequalIndices_nil_map _ _ Hlen).
      destruct (unequalIndices exp (findStepsInTest fs testFile)); simpl.
      * split; [now split | reflexivity].
      * split; [discriminate | intros [_ H]; discriminate H].
    + apply Nat.eqb_neq in Hlen. simpl. split; [discriminate|].
      intros [_ H]. exfalso. apply Hlen.
      rewrite <- (length_map trim exp), H. apply length_map.
  - unfold verifySteps. rewrite Hex. simpl.
    split; [discriminate | intros [H _]; discriminate H].
Qed.

(** The reason of [verifySteps] is decided in a fixed order: absence of
    the file first, then the number of steps, then their text; a reason
    is set exactly when the verdict is a failure. *)
Theorem verifySteps_reason_order (fs : FileSystem) (testFile : str) (exp : list Step) :
  let r := verifySteps fs testFile exp in
  let act := findStepsInTest fs testFile in
  (reason r = None <-> passed r = true) /\
  (reason r = Some MissingFile <-> fileExists fs testFile = false) /\
  (reason r = Some StepCountMismatch <->
   fileExists fs testFile = true /\ length exp <> length act) /\
  (reason r = Some StepMismatch <->
   fileExists fs testFile = true /\ length exp = length act /\
   map trim exp <> map trim act).
Proof.
  cbv zeta. destruct (fileExists fs testFile) eqn:Hex.
  - rewrite (verifySteps_present fs testFile exp Hex). cbv zeta.
    destruct (length exp =? length (findStepsInTest fs testFile)) eqn:Hlen; simpl negb;
      cbv iota.
    + apply Nat.eqb_eq in Hlen.
      rewrite <- (unequalIndices_nil_map _ _ Hlen).
      destruct (unequalIndices exp (findStepsInTest fs testFile)); simpl;
        intuition congruence.
    + apply Nat.eqb_neq in Hlen. simpl. intuition congruence.
  - unfold verifySteps. rewrite Hex. simpl. intuition congruence.
Qed.

(** On a count mismatch exactly one of [missingSteps] and [extraSteps]
    has entries, and it has as many as the two lengths differ by. *)
Theorem verifySteps_missing_or_extra (fs : FileSystem) (testFile : str)
    (exp : list Step) :
  fileExists fs testFile = true ->
  length exp <> length (findStepsInTest fs testFile) ->
  exists missing extra,
    missingSteps (verifySteps fs testFile exp) = Some missing /\
    extraSteps (verifySteps fs testFile exp) = Some extra /\
    length missing = length exp - length (findStepsInTest fs testFile) /\
    length extra = length (findStepsInTest fs testFile) - length exp /\
    (missing = [] \/ extra = []) /\
    (missing <> [] \/ extra <> []).
Proof.
  intros Hex Hlen.
  rewrite (verifySteps_present fs testFile exp Hex). cbv zeta.
  pose proof Hlen as Hb. apply Nat.eqb_neq in Hb. rewrite Hb. simpl.
  eexists; eexists. split; [reflexivity|]. split; [reflexivity|].
  rewrite !length_skipn, !length_map.
  split; [reflexivity|]. split; [reflexivity|].
  set (a := findStepsInTest fs testFile) in *.
  destruct (Nat.lt_ge_cases (length exp) (length a)) as [H|H].
  - split.
    + left. apply length_zero_iff_nil. rewrite length_skipn, length_map. lia.
    + right. intros E. apply (f_equal (@length str)) in E.
      rewrite length_skipn, length_map in E. simpl in E. lia.
  - split.
    + right. apply length_zero_iff_nil. rewrite length_skipn, length_map. lia.
    + left. intros E. apply (f_equal (@length str)) in E.
      rewrite length_skipn, length_map in E. simpl in E. lia.
Qed.

Lemma verifySteps_missing_or_extra_witness :
  exists missing extra,
    missingSteps (verifySteps Fixtures.fsAuth Fixtures.authTest Fixtures.expectThree)
      = Some missing /\
    extraSteps (verifySteps Fixtures.fsAuth Fixtures.authTest Fixtures.expectThree)
      = Some extra /\
    length missing = 1 /\ length extra = 0.
Proof.
  destruct (verifySteps_missing_or_extra Fixtures.fsAuth Fixtures.authTest
              Fixtures.expectThree) as (m & e & Hm & He & Lm & Le & _).
  - reflexivity.
  - vm_compute. lia.
  - exists m, e. repeat split; [exact Hm | exact He | exact Lm | exact Le].
Defined.

(* ================================================================== *)
(** * More on the flat step extractor *)
(* ================================================================== *)

Lemma captureStar_no_marker (t : str) :
  hasCloseMarker t = false -> captureStar t = None.
Proof.
  induction t as [|c t IH]; simpl; [reflexivity|].
  intros H. apply orb_false_iff in H as [Hh Ht].
  rewrite (IH Ht), Hh. now destruct (isDot c).
Qed.

Lemma captureStar_last_marker (body t : str) :
  Forall (fun c => isDot c = true) body ->
  hasCloseMarker t = false ->
  captureStar (body ++ closeMarker ++ t) = Some body.
Proof.
  intros Hbody Ht. induction Hbody as [|c body Hc _ IH].
  - change ([] ++ closeMarker ++ t) with (dquote :: rparen :: t).
    assert (E : captureStar (rparen :: t) = None).
    { cbn [captureStar]. change (isDot rparen) with true. cbv iota.
      now rewrite (captureStar_no_marker t Ht). }
    cbn [captureStar] in *. change (isDot dquote) with true. cbv iota.
    rewrite E. reflexivity.
  - change ((c :: body) ++ closeMarker ++ t) with (c :: (body ++ closeMarker ++ t)).
    cbn [captureStar]. rewrite Hc. cbv zeta. now rewrite IH.
Qed.

Lemma capturePlus_last_marker (body t : str) :
  body <> [] ->
  Forall (fun c => isDot c = true) body ->
  hasCloseMarker t = false ->
  capturePlus (body ++ closeMarker ++ t) = Some body.
Proof.
  intros Hne Hbody Ht.
  destruct body as [|c body]; [congruence|].
  inversion Hbody as [|? ? Hc Hrest]; subst.
  change ((c :: body) ++ closeMarker ++ t) with (c :: (body ++ closeMarker ++ t)).
  cbn [capturePlus]. rewrite Hc.
  now rewrite (captureStar_last_marker body t Hrest Ht).
Qed.

(** The step of a marker line is the text between the opening quote and
    the last quote-and-parenthesis of the line.  What follows the marker
    is ignored only as long as it holds no further quote-and-parenthesis:
    the quoted text [body] below may itself contain one. *)
Theorem matchStep_marker_line (indent gap body trailing : str) :
  Forall (fun c => isWhiteSpace c = true) indent ->
  Forall (fun c => isWhiteSpace c = true) gap ->
  body <> [] ->
  Forall (fun c => isDot c = true) body ->
  hasCloseMarker trailing = false ->
  matchStep (markerLine indent (lit "//") gap body trailing) = Some body /\
  matchStep (markerLine indent (lit "#") gap body trailing) = Some body.
Proof.
  intros Hi Hg Hne Hbody Ht.
  pose proof (capturePlus_last_marker body trailing Hne Hbody Ht) as Hcap.
  unfold markerLine, matchStep. split.
  - rewrite dropWhile_space_app by exact Hi.
    change (dropWhile isWhiteSpace
              (lit "//" ++ gap ++ lit "step(" ++ [dquote] ++ body ++ closeMarker ++ trailing))
      with (lit "//" ++ gap ++ lit "step(" ++ [dquote] ++ body ++ closeMarker ++ trailing).
    change (commentLeader
              (lit "//" ++ gap ++ lit "step(" ++ [dquote] ++ body ++ closeMarker ++ trailing))
      with (Some (gap ++ lit "step(" ++ [dquote] ++ body ++ closeMarker ++ trailing)).
    cbv iota beta. rewrite dropWhile_space_app by exact Hg.
    change (dropWhile isWhiteSpace
              (lit "step(" ++ [dquote] ++ body ++ closeMarker ++ trailing))
      with (lit "step(" ++ [dquote] ++ body ++ closeMarker ++ trailing).
    change (lit "step(" ++ [dquote] ++ body ++ closeMarker ++ trailing)
      with ((lit "step(" ++ [dquote]) ++ body ++ closeMarker ++ trailing).
    rewrite stripPrefix_app. exact Hcap.
  - rewrite dropWhile_space_app by exact Hi.
    change (dropWhile isWhiteSpace
              (lit "#" ++ gap ++ lit "step(" ++ [dquote] ++ body ++ closeMarker ++ trailing))
      with (lit "#" ++ gap ++ lit "step(" ++ [dquote] ++ body ++ closeMarker ++ trailing).
    change (commentLeader
              (lit "#" ++ gap ++ lit "step(" ++ [dquote] ++ body ++ closeMarker ++ trailing))
      with (Some (gap ++ lit "step(" ++ [dquote] ++ body ++ closeMarker ++ trailing)).
    cbv iota beta. rewrite dropWhile_space_app by exact Hg.
    change (dropWhile isWhiteSpace
              (lit "step(" ++ [dquote] ++ body ++ closeMarker ++ trailing))
      with (lit "step(" ++ [dquote] ++ body ++ closeMarker ++ trailing).
    change (lit "step(" ++ [dquote] ++ body ++ closeMarker ++ trailing)
      with ((lit "step(" ++ [dquote]) ++ body ++ closeMarker ++ trailing).
    rewrite stripPrefix_app. exact Hcap.
Qed.

Lemma matchStep_marker_line_witness :
  matchStep (markerLine (lit "  ") (lit "//") (lit " ")
                        (lit "a" ++ closeMarker ++ lit " or b(" ++ [dquote] ++ lit "c")
                        (lit " tail"))
  = Some (lit "a" ++ closeMarker ++ lit " or b(" ++ [dquote] ++ lit "c").
Proof.
  apply (matchStep_marker_line (lit "  ") (lit " ")
           (lit "a" ++ closeMarker ++ lit " or b(" ++ [dquote] ++ lit "c") (lit " tail")).
  - repeat constructor.
  - repeat constructor.
  - discriminate.
  - repeat constructor.
  - reflexivity.
Defined.

Lemma split_app_sep (sep : N) (a b : str) :
  split sep (a ++ sep :: b) = split sep a ++ split sep b.
Proof.
  induction a as [|c a IH]; simpl.
  - now rewrite N.eqb_refl.
  - destruct (c =? sep)%N; [now rewrite IH|].
    rewrite IH. pose proof (split_not_nil sep a).
    destruct (split sep a); [congruence | reflexivity].
Qed.

Lemma split_no_sep (sep : N) (s : str) :
  Forall (fun c => (c =? sep)%N = false) s -> split sep s = [s].
Proof.
  induction 1 as [|c s Hc _ IH]; simpl; [reflexivity|].
  now rewrite Hc, IH.
Qed.

(** Joining lines that hold no separator and splitting again gives the
    lines. *)
Lemma split_join (sep : N) (lines : list str) :
  lines <> [] ->
  Forall (Forall (fun c => (c =? sep)%N = false)) lines ->
  split sep (join [sep] lines) = lines.
Proof.
  intros Hne H. revert Hne. induction H as [|l lines Hl Hrest IH]; intros Hne;
    [exfalso; apply Hne; reflexivity|].
  destruct lines as [|l' lines'].
  - simpl. now apply split_no_sep.
  - change (join [sep] (l :: l' :: lines')) with (l ++ sep :: join [sep] (l' :: lines')).
    rewrite split_app_sep, IH by discriminate.
    now rewrite split_no_sep.
Qed.

(** Splitting and joining again gives the text. *)
Lemma join_split (sep : N) (s : str) : join [sep] (split sep s) = s.
Proof.
  induction s as [|c s IH]; simpl; [reflexivity|].
  pose proof (split_not_nil sep s) as Hne.
  destruct (c =? sep)%N eqn:E.
  - apply N.eqb_eq in E. subst c.
    destruct (split sep s) as [|h t]; [congruence|].
    change (join [sep] ([] :: h :: t)) with (sep :: join [sep] (h :: t)).
    now rewrite IH.
  - destruct (split sep s) as [|h t]; [congruence|].
    destruct t as [|h' t']; simpl in *; now rewrite <- IH.
Qed.

Lemma stepsOfContent_flat_map (content : str) :
  stepsOfContent content =
  flat_map (fun line => match matchStep line with Some s => [s] | None => [] end)
           (split newline content).
Proof.
  unfold stepsOfContent.
  assert (G : forall lines acc,
             fold_left
               (fun steps line =>
                  match matchStep line with
                  | Some group2 => steps ++ [orEmpty (Some group2)]
                  | None => steps
                  end) lines acc
             = acc ++ flat_map (fun line => match matchStep line with
                                            | Some s => [s] | None => [] end) lines).
  { induction lines as [|line lines IH]; intros acc; simpl.
    - now rewrite app_nil_r.
    - rewrite IH. destruct (matchStep line); simpl;
        [now rewrite <- app_assoc | reflexivity]. }
  apply G.
Qed.

(** The extractor carries nothing from one line to the next: the steps of
    two texts joined by a line feed are the steps of the first followed by
    the steps of the second. *)
Theorem stepsOfContent_lines (a b : str) :
  stepsOfContent (a ++ [newline] ++ b) = stepsOfContent a ++ stepsOfContent b.
Proof.
  rewrite !stepsOfContent_flat_map.
  change (a ++ [newline] ++ b) with (a ++ newline :: b).
  now rewrite split_app_sep, flat_map_app.
Qed.

Lemma dot_no_newline (s : str) :
  Forall (fun c => isDot c = true) s ->
  Forall (fun c => (c =? newline)%N = false) s.
Proof.
  intros H. eapply Forall_impl; [|exact H]. intros c Hc. cbv beta in *.
  destruct (c =? newline)%N eqn:E; [|reflexivity].
  apply N.eqb_eq in E. subst c. discriminate Hc.
Qed.

Lemma matchStep_plain_marker (s : str) :
  s <> [] -> Forall (fun c => isDot c = true) s ->
  matchStep (Fixtures.slashMarker s) = Some s /\
  matchStep (Fixtures.hashMarker s) = Some s.
Proof.
  intros Hne Hdot.
  pose proof (capturePlus_last_marker s [] Hne Hdot eq_refl) as Hcap.
  unfold Fixtures.slashMarker, Fixtures.hashMarker, matchStep.
  split.
  - change (dropWhile isWhiteSpace (lit "// step(" ++ [dquote] ++ s ++ [dquote] ++ lit ")"))
      with (lit "// step(" ++ [dquote] ++ s ++ [dquote] ++ lit ")").
    change (commentLeader (lit "// step(" ++ [dquote] ++ s ++ [dquote] ++ lit ")"))
      with (Some (lit " step(" ++ [dquote] ++ s ++ [dquote] ++ lit ")")).
    cbv iota beta.
    change (dropWhile isWhiteSpace (lit " step(" ++ [dquote] ++ s ++ [dquote] ++ lit ")"))
      with ((lit "step(" ++ [dquote]) ++ s ++ closeMarker ++ []).
    rewrite stripPrefix_app. exact Hcap.
  - change (dropWhile isWhiteSpace (lit "# step(" ++ [dquote] ++ s ++ [dquote] ++ lit ")"))
      with (lit "# step(" ++ [dquote] ++ s ++ [dquote] ++ lit ")").
    change (commentLeader (lit "# step(" ++ [dquote] ++ s ++ [dquote] ++ lit ")"))
      with (Some (lit " step(" ++ [dquote] ++ s ++ [dquote] ++ lit ")")).
    cbv iota beta.
    change (dropWhile isWhiteSpace (lit " step(" ++ [dquote] ++ s ++ [dquote] ++ lit ")"))
      with ((lit "step(" ++ [dquote]) ++ s ++ closeMarker ++ []).
    rewrite stripPrefix_app. exact Hcap.
Qed.

Lemma plain_marker_no_newline (s : str) :
  Forall (fun c => isDot c = true) s ->
  Forall (fun c => (c =? newline)%N = false) (Fixtures.slashMarker s) /\
  Forall (fun c => (c =? newline)%N = false) (Fixtures.hashMarker s).
Proof.
  intros Hdot. unfold Fixtures.slashMarker, Fixtures.hashMarker. split;
    repeat (apply Forall_app; split); try (repeat constructor);
    now apply dot_no_newline.
Qed.

(** The steps of a text given by its lines, none of which holds a line
    feed. *)
Lemma stepsOfContent_text (lines : list str) :
  Forall (Forall (fun c => (c =? newline)%N = false)) lines ->
  stepsOfContent (Fixtures.text lines)
  = flat_map (fun line => match matchStep line with Some s => [s] | None => [] end)
             lines.
Proof.
  intros H. rewrite stepsOfContent_flat_map. unfold Fixtures.text.
  destruct lines as [|l lines']; [reflexivity|].
  rewrite split_join; [reflexivity | discriminate | exact H].
Qed.

(** Round trip of the markers: a file that holds one marker line per step,
    in order, gives back the steps, whichever of the two comment leaders
    the lines use.  The steps are non-empty and hold no line terminator. *)
Theorem stepsOfContent_markers (ss : list Step) :
  Forall (fun s => s <> [] /\ Forall (fun c => isDot c = true) s) ss ->
  stepsOfContent (Fixtures.text (map Fixtures.slashMarker ss)) = ss /\
  stepsOfContent (Fixtures.text (map Fixtures.hashMarker ss)) = ss.
Proof.
  intros Hss. rewrite !stepsOfContent_text.
  - split.
    + induction Hss as [|s ss [Hne Hdot] _ IH]; simpl; [reflexivity|].
      rewrite (proj1 (matchStep_plain_marker s Hne Hdot)). simpl. now f_equal.
    + induction Hss as [|s ss [Hne Hdot] _ IH]; simpl; [reflexivity|].
      rewrite (proj2 (matchStep_plain_marker s Hne Hdot)). simpl. now f_equal.
  - apply Forall_map. eapply Forall_impl; [|exact Hss].
    intros s [_ Hdot]. apply (plain_marker_no_newline s Hdot).
  - apply Forall_map. eapply Forall_impl; [|exact Hss].
    intros s [_ Hdot]. apply (plain_marker_no_newline s Hdot).
Qed.

Lemma stepsOfContent_markers_witness :
  stepsOfContent (Fixtures.text (map Fixtures.slashMarker [lit "a"; lit " b c "]))
    = [lit "a"; lit " b c "] /\
  stepsOfContent (Fixtures.text (map Fixtures.hashMarker [lit "a"; lit " b c "]))
    = [lit "a"; lit " b c "].
Proof.
  apply (stepsOfContent_markers [lit "a"; lit " b c "]).
  repeat constructor; discriminate.
Defined.

(* ================================================================== *)
(** * More on the scenario parser *)
(* ================================================================== *)

Lemma dropWhile_Forall (P : N -> Prop) (p : N -> bool) (s : str) :
  Forall P s -> Forall P (dropWhile p s).
Proof.
  induction 1 as [|c s Hc Hs IH]; simpl; [constructor|].
  destruct (p c); [exact IH | now constructor].
Qed.

Lemma takeWhile_Forall_true (p : N -> bool) (s : str) :
  Forall (fun c => p c = true) (takeWhile p s).
Proof.
  induction s as [|c s IH]; simpl; [constructor|].
  destruct (p c) eqn:E; [now constructor | constructor].
Qed.

Lemma takeWhile_all (p : N -> bool) (s : str) :
  Forall (fun c => p c = true) s -> takeWhile p s = s.
Proof.
  induction 1 as [|c s Hc _ IH]; simpl; [reflexivity|].
  now rewrite Hc, IH.
Qed.

Lemma trim_Forall (P : N -> Prop) (s : str) : Forall P s -> Forall P (trim s).
Proof.
  intros H. unfold trim, JS.trim, trimStart, trimEnd.
  apply Forall_rev, dropWhile_Forall, Forall_rev, dropWhile_Forall, H.
Qed.

Lemma split_Forall (P : N -> Prop) (sep : N) (s : str) :
  Forall P s -> Forall (Forall P) (split sep s).
Proof.
  induction 1 as [|c s Hc Hs IH]; simpl; [repeat constructor|].
  destruct (c =? sep)%N; [constructor; [constructor | exact IH]|].
  destruct (split sep s) as [|h t]; [repeat constructor; exact Hc|].
  inversion IH; subst. constructor; [now constructor | assumption].
Qed.

Lemma split_pieces_no_sep (sep : N) (s : str) :
  Forall (Forall (fun c => (c =? sep)%N = false)) (split sep s).
Proof.
  induction s as [|c s IH]; simpl; [repeat constructor|].
  destruct (c =? sep)%N eqn:E; [constructor; [constructor | exact IH]|].
  destruct (split sep s) as [|h t]; [repeat constructor; exact E|].
  inversion IH; subst. constructor; [now constructor | assumption].
Qed.

(** The entries that [parseLevels] gives. *)
Lemma parseLevels_good (captured : str) :
  Forall (fun c => isDot c = true) captured ->
  Forall goodLevel (parseLevels captured).
Proof.
  intros Hdot. unfold parseLevels. simpl orEmpty.
  apply Forall_forall. intros l Hin.
  apply filter_In in Hin as [Hin Htruthy].
  apply in_map_iff in Hin as (piece & <- & Hpiece).
  pose proof (split_pieces_no_sep comma (trim captured)) as Hsep.
  pose proof (split_Forall _ comma (trim captured) (trim_Forall _ _ Hdot)) as Hd.
  rewrite Forall_forall in Hsep, Hd.
  repeat split.
  - intros E. rewrite E in Htruthy. discriminate.
  - apply trim_idempotent.
  - apply trim_Forall, Hsep, Hpiece.
  - apply trim_Forall, Hd, Hpiece.
Qed.

Lemma matchLevels_dot (line captured : str) :
  matchLevels line = Some captured -> Forall (fun c => isDot c = true) captured.
Proof.
  unfold matchLevels. destruct (stripPrefix _ line); [|discriminate].
  intros [= <-]. apply takeWhile_Forall_true.
Qed.

Lemma h2AfterSpace_dot (s cap : str) :
  h2AfterSpace s = Some cap -> Forall (fun c => isDot c = true) cap.
Proof.
  assert (R : forall u, capturePlusRun u = Some cap ->
                        Forall (fun c => isDot c = true) cap).
  { intros u. unfold capturePlusRun.
    pose proof (takeWhile_Forall_true isDot u) as T.
    destruct (takeWhile isDot u); [discriminate|]. now intros [= <-]. }
  induction s as [|c s IH]; simpl; [discriminate|].
  destruct (isWhiteSpace c); [|apply R].
  destruct (h2AfterSpace s); [intros [= <-]; now apply IH | apply R].
Qed.

Lemma matchH2_dot (line cap : str) :
  matchH2 line = Some cap -> Forall (fun c => isDot c = true) cap.
Proof.
  unfold matchH2. destruct (stripPrefix _ line) as [[|c s]|]; try discriminate.
  destruct (isWhiteSpace c); [apply h2AfterSpace_dot | discriminate].
Qed.

Lemma startsWith_app_false (a b s : str) :
  startsWith a s = false -> startsWith (a ++ b) s = false.
Proof.
  unfold startsWith. revert s; induction a as [|x a IH]; intros s; simpl.
  - discriminate.
  - destruct s as [|y s]; [reflexivity|].
    destruct (x =? y)%N; [apply IH | reflexivity].
Qed.

Lemma truthy_true (s : str) : truthy s = true <-> s <> [].
Proof. destruct s; simpl; split; congruence. Qed.

(** The invariant of the parser loop. *)
Lemma parseLine_good (st : ParseState) (line : str) :
  Forall (fun c => (c =? newline)%N = false) line ->
  Forall goodScenario (scenarios st) ->
  (forall cur, currentScenario st = Some cur ->
               goodName (name cur) /\ Forall goodLevel (levels cur)) ->
  Forall goodStep (currentSteps st) ->
  Forall goodScenario (scenarios (parseLine st line)) /\
  (forall cur, currentScenario (parseLine st line) = Some cur ->
               goodName (name cur) /\ Forall goodLevel (levels cur)) /\
  Forall goodStep (currentSteps (parseLine st line)).
Proof.
  intros Hline Hscs Hcur Hsteps.
  assert (Hsave : Forall goodScenario (saveScenario st)).
  { unfold saveScenario. destruct (currentScenario st) as [cur|] eqn:Ec; [|exact Hscs].
    destruct (currentSteps st) as [|s ss] eqn:Es; [exact Hscs|].
    apply Forall_app. split; [exact Hscs|]. constructor; [|constructor].
    destruct (Hcur cur eq_refl) as [Hn Hl].
    unfold goodScenario. simpl.
    split; [exact Hn | split; [exact Hl | split; [assumption | discriminate]]]. }
  destruct st as [scs cur blk pend]. simpl in Hscs, Hcur, Hsteps.
  unfold parseLine. destruct (matchH2 line) as [h2|] eqn:Eh.
  - simpl. split; [exact Hsave|]. split; [|constructor].
    intros cur' [= <-]. simpl. split; [|constructor].
    split; [apply trim_idempotent | apply trim_Forall, (matchH2_dot line), Eh].
  - simpl. destruct cur as [cur|].
    + destruct (matchLevels line) as [captured|] eqn:El.
      * simpl. split; [exact Hscs|]. split; [|exact Hsteps].
        intros cur' [= <-]. simpl. split; [apply (Hcur cur eq_refl)|].
        apply parseLevels_good, (matchLevels_dot line), El.
      * destruct (startsWith fenceSpecguard line) eqn:Ef1; simpl;
          [split; [exact Hscs | split; [exact Hcur | exact Hsteps]]|].
        destruct (startsWith fence line) eqn:Ef2, blk; simpl;
          try (split; [exact Hscs | split; [exact Hcur | exact Hsteps]]).
        destruct (truthy (trim line)) eqn:Et; simpl;
          try (split; [exact Hscs | split; [exact Hcur | exact Hsteps]]).
        split; [exact Hscs|]. split; [exact Hcur|].
        apply Forall_app. split; [exact Hsteps|]. constructor; [|constructor].
        unfold goodStep. apply truthy_true in Et. repeat split; assumption.
    + destruct (matchLevels line);
        destruct (startsWith fenceSpecguard line); simpl;
        try (split; [exact Hscs | split; [exact Hcur | exact Hsteps]]);
        destruct (startsWith fence line && blk); simpl;
        try (split; [exact Hscs | split; [exact Hcur | exact Hsteps]]);
        rewrite andb_false_r; simpl;
        (split; [exact Hscs | split; [exact Hcur | exact Hsteps]]).
Qed.

Lemma parseScenarios_Forall_good (content : str) :
  Forall goodScenario (parseScenarios content).
Proof.
  unfold parseScenarios.
  pose proof (split_pieces_no_sep newline content) as Hlines.
  assert (G : forall lines st,
             Forall (Forall (fun c => (c =? newline)%N = false)) lines ->
             Forall goodScenario (scenarios st) ->
             (forall cur, currentScenario st = Some cur ->
                          goodName (name cur) /\ Forall goodLevel (levels cur)) ->
             Forall goodStep (currentSteps st) ->
             Forall goodScenario (saveScenario (fold_left parseLine lines st))).
  { induction lines as [|line lines IH]; intros st Hl Hscs Hcur Hsteps; simpl.
    - unfold saveScenario. destruct (currentScenario st) as [cur|] eqn:Ec; [|exact Hscs].
      destruct (currentSteps st) as [|s ss] eqn:Es; [exact Hscs|].
      apply Forall_app. split; [exact Hscs|]. constructor; [|constructor].
      destruct (Hcur cur eq_refl) as [Hn Hlv].
      unfold goodScenario. simpl.
      split; [exact Hn | split; [exact Hlv | split; [assumption | discriminate]]].
    - inversion Hl as [|? ? Hline Hrest]; subst.
      destruct (parseLine_good st line Hline Hscs Hcur Hsteps) as (G1 & G2 & G3).
      now apply IH. }
  apply G; [exact Hlines | constructor | | constructor].
  simpl. intros c Hc. discriminate Hc.
Qed.

(** What the parser stores.  In every scenario that it returns the name is
    trimmed and free of line terminators; every level is non-empty,
    trimmed and free of commas and line terminators; every step is
    non-blank, free of line feeds, does not start with a fence and is
    neither a heading nor a levels line; and there is at least one step. *)
Theorem parsed_scenarios_good (content : str) (sc : Scenario) :
  In sc (parseScenarios content) ->
  goodName (name sc) /\ Forall goodLevel (levels sc) /\
  Forall goodStep (steps sc) /\ steps sc <> [].
Proof.
  intros Hin. pose proof (parseScenarios_Forall_good content) as H.
  rewrite Forall_forall in H. exact (H sc Hin).
Qed.

Lemma parsed_scenarios_good_witness :
  goodName (lit "Login") /\
  Forall goodLevel [lit "unit"; lit "e2e"; lit "unit"] /\
  Forall goodStep [lit "Validate input"] /\
  [lit "Validate input"] <> [].
Proof.
  apply (parsed_scenarios_good Fixtures.specRepeatedLevel
           (mkScenario (lit "Login") [lit "unit"; lit "e2e"; lit "unit"]
                       [lit "Validate input"])).
  vm_compute. left. reflexivity.
Defined.

(** The levels that [extractLevels] gives are entries as the parser
    stores them: non-empty, trimmed, free of commas and line terminators. *)
Theorem extractLevels_good (fs : FileSystem) (filePath : str) (ls : list TestLevel) :
  extractLevels fs filePath = Some ls -> Forall goodLevel ls.
Proof.
  unfold extractLevels. destruct (readFile fs filePath) as [content|]; [|discriminate].
  intros [= <-]. induction (split newline content) as [|line lines IH]; simpl.
  - constructor.
  - destruct (matchLevels line) as [captured|] eqn:E; [|exact IH].
    apply parseLevels_good, (matchLevels_dot line), E.
Qed.

Lemma extractLevels_good_witness :
  Forall goodLevel [lit "unit"; lit "e2e"; lit "unit"].
Proof.
  apply (extractLevels_good
           (Fixtures.oneFile Fixtures.authSpec Fixtures.specRepeatedLevel)
           Fixtures.authSpec).
  reflexivity.
Defined.

(** ** Parsing the layout of the spec files *)

Lemma dropWhile_length (p : N -> bool) (s : str) :
  length (dropWhile p s) <= length s.
Proof.
  induction s as [|c s IH]; simpl; [lia|]. destruct (p c); simpl; lia.
Qed.

Lemma trim_fixed_start (s : str) : trim s = s -> dropWhile isWhiteSpace s = s.
Proof.
  intros H.
  assert (L : length s <= length (dropWhile isWhiteSpace s)).
  { rewrite <- H at 1. unfold trim, JS.trim, trimStart, trimEnd.
    rewrite length_rev.
    etransitivity; [apply dropWhile_length|]. now rewrite length_rev. }
  destruct s as [|c s']; [reflexivity|]. simpl in *.
  destruct (isWhiteSpace c); [|reflexivity].
  pose proof (dropWhile_length isWhiteSpace s'). lia.
Qed.

Lemma matchH2_heading (n : str) :
  n <> [] -> goodName n -> matchH2 (lit "## " ++ n) = Some n.
Proof.
  intros Hne [Htrim Hdot].
  change (lit "## " ++ n) with (lit "##" ++ 32%N :: n).
  unfold matchH2. rewrite stripPrefix_app.
  change (isWhiteSpace 32) with true. cbv iota.
  pose proof (trim_fixed_start n Htrim) as Hstart.
  destruct n as [|c n']; [congruence|].
  cbn [h2AfterSpace]. simpl in Hstart.
  destruct (isWhiteSpace c).
  - exfalso. pose proof (dropWhile_length isWhiteSpace n') as L.
    rewrite Hstart in L. simpl in L. lia.
  - unfold capturePlusRun. now rewrite (takeWhile_all isDot (c :: n') Hdot).
Qed.

Lemma levelEntries_join (ls : list TestLevel) :
  Forall goodLevel ls -> levelEntries (join (lit ", ") ls) = ls.
Proof.
  induction 1 as [|l ls (Hne & Htrim & Hcomma & _) Hrest IH]; [reflexivity|].
  assert (Hl : filter truthy (map trim [l]) = [l]).
  { simpl. rewrite Htrim. apply truthy_true in Hne. now rewrite Hne. }
  destruct ls as [|l' ls'].
  - unfold levelEntries. simpl join. now rewrite split_no_sep.
  - change (join (lit ", ") (l :: l' :: ls'))
      with (l ++ comma :: (lit " " ++ join (lit ", ") (l' :: ls'))).
    unfold levelEntries in *.
    rewrite split_app_sep, map_app, filter_app.
    rewrite split_no_sep by exact Hcomma. rewrite Hl.
    rewrite map_trim_split_left by (repeat constructor).
    now rewrite IH.
Qed.

Lemma join_Forall (P : N -> Prop) (sep : str) (parts : list str) :
  Forall P sep -> Forall (Forall P) parts -> Forall P (join sep parts).
Proof.
  intros Hsep H. induction H as [|p parts Hp _ IH]; [constructor|].
  destruct parts as [|q parts']; [exact Hp|].
  change (join sep (p :: q :: parts')) with (p ++ sep ++ join sep (q :: parts')).
  apply Forall_app. split; [exact Hp|]. apply Forall_app. now split.
Qed.

Lemma levels_csv_start (ls : list TestLevel) :
  Forall goodLevel ls ->
  dropWhile isWhiteSpace (join (lit ", ") ls) = join (lit ", ") ls.
Proof.
  intros H. destruct H as [|l ls (Hne & Htrim & _) _]; [reflexivity|].
  pose proof (trim_fixed_start l Htrim) as Hs.
  assert (G : forall tail, dropWhile isWhiteSpace (l ++ tail) = l ++ tail).
  { intros tail. destruct l as [|c l']; [congruence|]. simpl in *.
    destruct (isWhiteSpace c); [|reflexivity].
    exfalso. pose proof (dropWhile_length isWhiteSpace l') as L.
    rewrite Hs in L. simpl in L. lia. }
  destruct ls as [|l' ls'].
  - simpl. rewrite <- (app_nil_r l). apply G.
  - apply G.
Qed.

(** The levels line of a scenario, read while the scenario is open. *)
Lemma parseLine_levels_line (scs : list Scenario) (n : str) (blk : bool)
    (pend : list Step) (ls : list TestLevel) :
  Forall goodLevel ls ->
  parseLine (mkParseState scs (Some (mkScenario n [] [])) blk pend)
            (lit "levels: " ++ join (lit ", ") ls)
  = mkParseState scs (Some (mkScenario n ls [])) blk pend.
Proof.
  intros Hls.
  assert (M : matchLevels (lit "levels:" ++ lit " " ++ join (lit ", ") ls)
              = Some (join (lit ", ") ls)).
  { pose proof (matchLevels_capture (lit " ") (join (lit ", ") ls) []) as M.
    rewrite !app_nil_r in M. apply M.
    - repeat constructor.
    - now apply levels_csv_start.
    - apply takeWhile_all.
      apply join_Forall; [repeat constructor|].
      eapply Forall_impl; [|exact Hls]. intros l (_ & _ & _ & Hd). exact Hd. }
  unfold parseLine.
  change (matchH2 (lit "levels: " ++ join (lit ", ") ls)) with (@None str).
  cbn [currentScenario].
  change (matchLevels (lit "levels: " ++ join (lit ", ") ls))
    with (matchLevels (lit "levels:" ++ lit " " ++ join (lit ", ") ls)).
  rewrite M. unfold parseLevels. simpl orEmpty.
  change (filter truthy (map trim (split comma (trim (join (lit ", ") ls)))))
    with (levelEntries (trim (join (lit ", ") ls))).
  rewrite levelEntries_trim, levelEntries_join by exact Hls. reflexivity.
Qed.

(** The step lines of a scenario, read inside its block. *)
Lemma fold_parseLine_steps (scs : list Scenario) (cur : Scenario)
    (ss pend : list Step) :
  Forall goodStep ss ->
  fold_left parseLine ss (mkParseState scs (Some cur) true pend)
  = mkParseState scs (Some cur) true (pend ++ ss).
Proof.
  intros H. revert pend.
  induction H as [|s ss (Hb & _ & Hf & Hh & Hl) _ IH]; intros pend; simpl.
  - now rewrite app_nil_r.
  - assert (Hfs : startsWith fenceSpecguard s = false)
      by exact (startsWith_app_false fence (lit "specguard") s Hf).
    unfold parseLine at 2. rewrite Hh. cbn [currentScenario]. rewrite Hl.
    rewrite Hfs, Hf.
    cbn [inCodeblock andb]. apply truthy_true in Hb. rewrite Hb. cbv iota. cbn [scenarios currentSteps].
    rewrite IH. now rewrite <- app_assoc.
Qed.

(** The lines of one scenario, read from any state: the pending scenario
    is saved and the new one is left open with its steps. *)
Lemma fold_parseLine_scenario (st : ParseState) (sc : Scenario) :
  name sc <> [] -> goodScenario sc ->
  fold_left parseLine (formatScenario sc) st
  = mkParseState (saveScenario st) (Some (mkScenario (name sc) (levels sc) []))
                 false (steps sc).
Proof.
  intros Hne (Hname & Hlevels & Hsteps & _).
  unfold formatScenario. rewrite fold_left_app. cbn [fold_left].
  assert (E1 : parseLine st (lit "## " ++ name sc)
               = mkParseState (saveScenario st)
                              (Some (mkScenario (name sc) [] [])) false []).
  { unfold parseLine. rewrite (matchH2_heading (name sc) Hne Hname).
    destruct Hname as [Ht _]. unfold Utils.trim in Ht. now rewrite Ht. }
  rewrite E1, (parseLine_levels_line _ _ _ _ _ Hlevels).
  assert (E3 : parseLine (mkParseState (saveScenario st)
                            (Some (mkScenario (name sc) (levels sc) [])) false [])
                         fenceSpecguard
               = mkParseState (saveScenario st)
                              (Some (mkScenario (name sc) (levels sc) [])) true [])
    by reflexivity.
  rewrite E3, fold_left_app, (fold_parseLine_steps _ _ _ _ Hsteps).
  reflexivity.
Qed.

Lemma saveScenario_open (scs : list Scenario) (sc : Scenario) (blk : bool) :
  steps sc <> [] ->
  saveScenario (mkParseState scs (Some (mkScenario (name sc) (levels sc) []))
                             blk (steps sc))
  = scs ++ [sc].
Proof.
  intros Hne. unfold saveScenario. simpl.
  destruct sc as [n ls ss]. simpl in *. destruct ss; [congruence | reflexivity].
Qed.

Lemma fold_parseLine_spec (scs : list Scenario) (st : ParseState) :
  Forall (fun sc => name sc <> [] /\ goodScenario sc) scs ->
  saveScenario (fold_left parseLine (flat_map formatScenario scs) st)
  = saveScenario st ++ scs.
Proof.
  intros H. revert st. induction H as [|sc scs [Hne Hgood] _ IH]; intros st.
  - simpl. now rewrite app_nil_r.
  - cbn [flat_map]. rewrite fold_left_app, (fold_parseLine_scenario st sc Hne Hgood).
    rewrite IH, saveScenario_open by apply Hgood.
    now rewrite <- app_assoc.
Qed.

Lemma formatScenario_lines (sc : Scenario) :
  goodScenario sc ->
  Forall (Forall (fun c => (c =? newline)%N = false)) (formatScenario sc).
Proof.
  intros ((_ & Hname) & Hlevels & Hsteps & _). unfold formatScenario.
  repeat constructor.
  - now apply dot_no_newline.
  - apply dot_no_newline, join_Forall; [repeat constructor|].
    eapply Forall_impl; [|exact Hlevels]. intros l (_ & _ & _ & Hd). exact Hd.
  - apply Forall_app. split.
    + eapply Forall_impl; [|exact Hsteps]. intros s (_ & Hn & _). exact Hn.
    + repeat constructor.
Qed.



(** ** The steps of the scenarios among the steps of [extractSteps] *)

Lemma stepsLine_cases (e : bool * list Step) (line : str) :
  (startsWith fenceSpecguard line = true -> stepsLine e line = (true, snd e)) /\
  (startsWith fenceSpecguard line = false -> startsWith fence line = false ->
   fst e = true -> truthy (trim line) = true ->
   stepsLine e line = (true, snd e ++ [line])) /\
  (startsWith fenceSpecguard line = false -> startsWith fence line = false ->
   fst (stepsLine e line) = fst e) /\
  (snd (stepsLine e line) = snd e \/ snd (stepsLine e line) = snd e ++ [line]).
Proof.
  unfold stepsLine. destruct e as [eb es]. simpl.
  destruct (startsWith fenceSpecguard line), (startsWith fence line), eb,
    (truthy (trim line)); simpl; repeat split; intros; try discriminate;
    try reflexivity; auto.
Qed.

Lemma matchLevels_no_fence (line captured : str) :
  matchLevels line = Some captured ->
  startsWith fenceSpecguard line = false /\ startsWith fence line = false.
Proof.
  unfold matchLevels. destruct line as [|c line]; [discriminate|].
  destruct (stripPrefix (lit "levels:") (c :: line)) eqn:E; [|discriminate].
  intros _. change (lit "levels:") with (108%N :: lit "evels:") in E.
  cbn [stripPrefix] in E. destruct (108 =? c)%N eqn:Ec; [|discriminate].
  apply N.eqb_eq in Ec. subst c. split; reflexivity.
Qed.

Lemma flat_map_steps_save (scs : list Scenario) (cur : option Scenario)
    (blk : bool) (pend : list Step) :
  (cur = None -> pend = []) ->
  flat_map steps (saveScenario (mkParseState scs cur blk pend))
  = flat_map steps scs ++ pend.
Proof.
  intros H. unfold saveScenario. simpl. destruct cur as [c|].
  - destruct pend; [now rewrite app_nil_r|].
    now rewrite flat_map_app; simpl; rewrite app_nil_r.
  - rewrite (H eq_refl). now rewrite app_nil_r.
Qed.

Lemma parseLine_stepsLine (st : ParseState) (e : bool * list Step) (line : str) :
  (currentScenario st = None -> currentSteps st = []) ->
  (inCodeblock st = true -> fst e = true) ->
  Subseq (flat_map steps (scenarios st) ++ currentSteps st) (snd e) ->
  (currentScenario (parseLine st line) = None -> currentSteps (parseLine st line) = []) /\
  (inCodeblock (parseLine st line) = true -> fst (stepsLine e line) = true) /\
  Subseq (flat_map steps (scenarios (parseLine st line))
          ++ currentSteps (parseLine st line))
         (snd (stepsLine e line)).
Proof.
  intros Hnone Hflag Hsub.
  destruct (stepsLine_cases e line) as (C1 & C2 & C3 & C4).
  assert (Hskip : forall T, Subseq T (snd e) -> Subseq T (snd (stepsLine e line))).
  { intros T HT. destruct C4 as [E | E]; rewrite E;
      [exact HT | now apply Subseq_skip]. }
  destruct st as [scs cur blk pend]. simpl in Hnone, Hflag, Hsub.
  unfold parseLine. destruct (matchH2 line) as [h2|] eqn:Eh.
  - simpl. split; [discriminate|]. split; [discriminate|].
    apply Hskip. rewrite app_nil_r, flat_map_steps_save by exact Hnone. exact Hsub.
  - cbn [currentScenario scenarios inCodeblock currentSteps].
    destruct cur as [c|].
    + destruct (matchLevels line) as [captured|] eqn:El.
      * destruct (matchLevels_no_fence line captured El) as [F1 F2].
        simpl. split; [discriminate|]. split; [|apply Hskip, Hsub].
        intros Hb. rewrite (C3 F1 F2). now apply Hflag.
      * destruct (startsWith fenceSpecguard line) eqn:F1.
        { simpl. split; [discriminate|]. split; [|apply Hskip, Hsub].
          intros _. now rewrite (C1 eq_refl). }
        destruct (startsWith fence line) eqn:F2, blk; simpl.
        -- split; [discriminate|]. split; [discriminate | apply Hskip, Hsub].
        -- split; [discriminate|]. split; [discriminate | apply Hskip, Hsub].
        -- destruct (truthy (trim line)) eqn:Et; simpl.
           ++ rewrite (C2 eq_refl eq_refl (Hflag eq_refl) eq_refl). simpl.
              split; [discriminate|]. split; [reflexivity|].
              rewrite app_assoc. now apply Subseq_keep.
           ++ split; [discriminate|]. split; [|apply Hskip, Hsub].
              intros _. rewrite (C3 eq_refl eq_refl). now apply Hflag.
        -- split; [discriminate|]. split; [discriminate | apply Hskip, Hsub].
    + assert (Hp : pend = []) by now apply Hnone. subst pend.
      assert (Helse :
        let st' :=
          if startsWith fenceSpecguard line then mkParseState scs None true []
          else if startsWith fence line && blk then mkParseState scs None false []
          else if blk && false && truthy (trim line)
               then mkParseState scs None blk ([] ++ [line])
               else mkParseState scs None blk [] in
        (currentScenario st' = None -> currentSteps st' = []) /\
        (inCodeblock st' = true -> fst (stepsLine e line) = true) /\
        Subseq (flat_map steps (scenarios st') ++ currentSteps st')
               (snd (stepsLine e line))).
      { cbv zeta. destruct (startsWith fenceSpecguard line) eqn:F1.
        { simpl. split; [reflexivity|]. split; [|apply Hskip, Hsub].
          intros _. now rewrite (C1 eq_refl). }
        destruct (startsWith fence line) eqn:F2, blk; simpl;
          (split; [reflexivity|]); (split; [|apply Hskip, Hsub]);
          try discriminate.
        intros _. rewrite (C3 eq_refl eq_refl). now apply Hflag. }
      destruct (matchLevels line); exact Helse.
Qed.

(** Every step that the scenario parser stores is also a step of
    [extractSteps], in the same order: the steps of the parsed scenarios,
    one after the other, are the steps of [extractSteps] with some left
    out. *)
Theorem scenario_steps_among_extractSteps (content : str) :
  Subseq (flat_map steps (parseScenarios content)) (stepsOfSpec content).
Proof.
  unfold parseScenarios, stepsOfSpec.
  assert (G : forall lines st e,
             (currentScenario st = None -> currentSteps st = []) ->
             (inCodeblock st = true -> fst e = true) ->
             Subseq (flat_map steps (scenarios st) ++ currentSteps st) (snd e) ->
             Subseq (flat_map steps (saveScenario (fold_left parseLine lines st)))
                    (snd (fold_left stepsLine lines e))).
  { induction lines as [|line lines IH]; intros st e Hn Hf Hs; simpl.
    - destruct st as [scs cur blk pend]. simpl in *.
      now rewrite flat_map_steps_save.
    - destruct (parseLine_stepsLine st e line Hn Hf Hs) as (A & B & C).
      now apply IH. }
  apply G; simpl; [reflexivity | discriminate | constructor].
Qed.

(* ================================================================== *)
(** * More on the orchestrator *)
(* ================================================================== *)

Lemma parsed_level_trimmed (content : str) (sc : Scenario) (l : TestLevel) :
  In sc (parseScenarios content) -> In l (levels sc) -> trim l = l.
Proof.
  intros Hsc Hl. pose proof (parseScenarios_Forall_good content) as H.
  rewrite Forall_forall in H. destruct (H sc Hsc) as (_ & Hls & _).
  rewrite Forall_forall in Hls. apply (Hls l Hl).
Qed.

Lemma processLevel_level (fs : FileSystem) (specguardFile baseDir relPath : str)
    (scs : list Scenario) (lvl : TestLevel) :
  level (snd (processLevel fs specguardFile baseDir relPath scs lvl)) = trim lvl /\
  specFile (snd (processLevel fs specguardFile baseDir relPath scs lvl)) = specguardFile.
Proof. split; reflexivity. Qed.

(** One result per level of the file.  A spec file with scenarios gives
    one result for every level that one of its scenarios names, in the
    order in which the levels first appear, and never two results for
    the same level, however often the level is named; no warning is
    logged. *)
Theorem results_one_per_level (fs : FileSystem)
    (specguardFile baseDir folder content : str) :
  fs specguardFile = Some content ->
  parseScenarios content <> [] ->
  exists rs,
    processSpecguardFile fs specguardFile baseDir folder = Some (rs, []) /\
    map level rs = allLevels (parseScenarios content) /\
    NoDup (map level rs) /\
    (forall lvl, In lvl (map level rs) <->
                 exists sc, In sc (parseScenarios content) /\ In lvl (levels sc)) /\
    Forall (fun r => specFile r = specguardFile) rs.
Proof.
  intros Hfs Hne.
  rewrite (processSpecguardFile_results fs specguardFile baseDir folder content Hfs Hne).
  eexists. split; [reflexivity|].
  destruct (allLevels_spec (parseScenarios content)) as [Hnd Hmem].
  assert (Hmap : map level
                   (map (fun lvl =>
                           snd (processLevel fs specguardFile baseDir
                                  (relPathNoExt specguardFile folder)
                                  (parseScenarios content) lvl))
                        (allLevels (parseScenarios content)))
                 = allLevels (parseScenarios content)).
  { rewrite map_map. rewrite <- (map_id (allLevels (parseScenarios content))) at 2.
    apply map_ext_in. intros lvl Hin. simpl.
    now apply allLevels_trimmed with (parseScenarios content). }
  rewrite Hmap. split; [reflexivity|]. split; [exact Hnd|]. split.
  - intros lvl. rewrite Hmem. split.
    + intros (sc & l & Hsc & Hl & ->). exists sc. split; [exact Hsc|].
      now rewrite (parsed_level_trimmed content sc l Hsc Hl).
    + intros (sc & Hsc & Hl). exists sc, lvl. repeat split; try assumption.
      symmetry. now apply (parsed_level_trimmed content sc lvl Hsc Hl).
  - apply Forall_forall. intros r Hr. apply in_map_iff in Hr as (lvl & <- & _).
    reflexivity.
Qed.

Lemma results_one_per_level_witness :
  exists rs,
    processSpecguardFile Fixtures.fsWithEmpty Fixtures.authSpec (lit "a")
                         (lit "specguard") = Some (rs, []) /\
    map level rs = [lit "unit"].
Proof.
  destruct (results_one_per_level Fixtures.fsWithEmpty Fixtures.authSpec (lit "a")
              (lit "specguard") Fixtures.specWithEmpty)
    as (rs & Hrs & Hmap & _).
  - reflexivity.
  - vm_compute. discriminate.
  - exists rs. split; [exact Hrs | exact Hmap].
Defined.

(** ** The breakdown per scenario *)

Lemma fold_left_const {A B : Type} (l : list B) (a : A) :
  fold_left (fun s _ => s) l a = a.
Proof. induction l; simpl; auto. Qed.

(** The inline loop passes on lists that agree after trimming. *)
Lemma checkScenario_match (e a : list Step) :
  map trim e = map trim a -> checkScenario e a = (true, None).
Proof.
  intros H. unfold checkScenario, forRange. rewrite Nat.sub_0_r.
  assert (Hlen : length e = length a).
  { pose proof (f_equal (@length str) H) as L. now rewrite !length_map in L. }
  rewrite (fold_left_ext_in _ (fun st _ => st)); [apply fold_left_const|].
  intros i st Hi. apply in_seq in Hi. cbv zeta.
  rewrite (nth_error_nth_default e i []) by lia.
  rewrite (nth_error_nth_default a i []) by lia. simpl.
  assert (E : JS.trim (nth i e []) = JS.trim (nth i a [])).
  { change (trim (nth i e []) = trim (nth i a [])).
    rewrite <- !nth_map_trim. now rewrite H. }
  rewrite E, eqb_refl. reflexivity.
Qed.

Lemma verifySteps_actualSteps (fs : FileSystem) (path : str) (exp : list Step) :
  fileExists fs path = true ->
  actualSteps (verifySteps fs path exp) = findStepsInTest fs path.
Proof.
  intros Hex. rewrite (verifySteps_present fs path exp Hex). cbv zeta.
  destruct (negb _); [reflexivity|].
  destruct (map _ _); reflexivity.
Qed.

Lemma scenarioVerification_expectedSteps (v : StepVerificationResult)
    (sc : Scenario) (off : nat) :
  expectedSteps (scenarioVerification v sc off) = steps sc.
Proof.
  unfold scenarioVerification. destruct (checkScenario _ _) as [p r].
  destruct (reason v) as [[| |]|]; reflexivity.
Qed.

Lemma scenarioLoop_names (v : StepVerificationResult) (lvl : TestLevel)
    (scs : list Scenario) (off : nat) :
  map scenarioName (scenarioLoop v lvl scs off) = map name (filter (hasLevel lvl) scs) /\
  flat_map (fun s => expectedSteps (stepVerification s)) (scenarioLoop v lvl scs off)
  = flat_map steps (filter (hasLevel lvl) scs).
Proof.
  revert off; induction scs as [|sc scs IH]; intros off; simpl; [split; reflexivity|].
  rewrite includes_hasLevel. destruct (hasLevel lvl sc); simpl.
  - destruct (IH (off + length (steps sc))) as [IH1 IH2].
    rewrite IH1, IH2, scenarioVerification_expectedSteps. split; reflexivity.
  - apply IH.
Qed.

Lemma scenarioLoop_missing (v : StepVerificationResult) (lvl : TestLevel)
    (scs : list Scenario) (off : nat) :
  reason v = Some MissingFile ->
  Forall (fun s => passed (stepVerification s) = false /\
                   reason (stepVerification s) = Some MissingFile /\
                   missingSteps (stepVerification s)
                   = Some (expectedSteps (stepVerification s)))
         (scenarioLoop v lvl scs off).
Proof.
  intros Hr. revert off; induction scs as [|sc scs IH]; intros off; simpl;
    [constructor|].
  destruct (includes (levels sc) lvl); [|apply IH].
  constructor; [|apply IH]. simpl. unfold scenarioVerification.
  destruct (checkScenario _ _) as [p r]. rewrite Hr. simpl. repeat split.
Qed.

Lemma scenarioLoop_passed (v : StepVerificationResult) (lvl : TestLevel)
    (scs : list Scenario) (off : nat) :
  reason v = None ->
  map trim (flat_map steps (filter (hasLevel lvl) scs))
  = map trim (skipn off (actualSteps v)) ->
  Forall (fun s => passed (stepVerification s) = true /\
                   reason (stepVerification s) = None)
         (scenarioLoop v lvl scs off).
Proof.
  intros Hr. revert off; induction scs as [|sc scs IH]; intros off H; simpl;
    [constructor|].
  rewrite includes_hasLevel. simpl in H. destruct (hasLevel lvl sc); [|now apply IH].
  simpl in H. rewrite map_app in H.
  assert (Hslice : map trim (steps sc)
                   = map trim (slice (actualSteps v) off (off + length (steps sc)))).
  { unfold slice. replace (off + length (steps sc) - off) with (length (steps sc)) by lia.
    rewrite <- firstn_map, <- H.
    rewrite firstn_app, length_map, Nat.sub_diag, firstn_O, app_nil_r.
    rewrite firstn_all2 by (rewrite length_map; lia). reflexivity. }
  constructor.
  - simpl. unfold scenarioVerification.
    rewrite (checkScenario_match _ _ Hslice), Hr. simpl. split; reflexivity.
  - apply IH.
    apply (f_equal (skipn (length (steps sc)))) in H.
    rewrite skipn_app, length_map, Nat.sub_diag in H. simpl in H.
    rewrite skipn_all2 in H by (rewrite length_map; lia). simpl in H.
    rewrite H, skipn_map, skipn_skipn. f_equal. f_equal. lia.
Qed.

(** The breakdown agrees with the verdict of the file.  It has one entry
    per scenario of the level, in order, and their expected steps make up
    the expected steps of the file; when the file passes, every scenario
    of the breakdown passes; when the file is missing, every scenario is
    reported missing with all its steps. *)
Theorem breakdown_follows_verdict (fs : FileSystem)
    (specguardFile baseDir relPath : str) (scs : list Scenario) (lvl : TestLevel) :
  let run := processLevel fs specguardFile baseDir relPath scs lvl in
  map scenarioName (scenarioResults (snd run))
  = map name (filter (hasLevel (trim lvl)) scs) /\
  flat_map (fun s => expectedSteps (stepVerification s)) (scenarioResults (snd run))
  = expectedSteps (fst run) /\
  (passed (fst run) = true ->
   Forall (fun s => passed (stepVerification s) = true /\
                    reason (stepVerification s) = None)
          (scenarioResults (snd run))) /\
  (reason (fst run) = Some MissingFile ->
   Forall (fun s => passed (stepVerification s) = false /\
                    reason (stepVerification s) = Some MissingFile /\
                    missingSteps (stepVerification s)
                    = Some (expectedSteps (stepVerification s)))
          (scenarioResults (snd run))).
Proof.
  cbv zeta. unfold processLevel. cbv zeta. simpl fst. simpl snd. simpl scenarioResults.
  set (tf := fst (resolveTestFile fs (joinPath [baseDir; trim lvl; relPath]))).
  set (v := verifySteps fs tf (allStepsForLevel scs (trim lvl))).
  destruct (scenarioLoop_names v (trim lvl) scs 0) as [Hn He].
  split; [exact Hn|]. split.
  - rewrite He. unfold v. rewrite verifySteps_expectedSteps.
    symmetry. apply allStepsForLevel_concat.
  - split; [|apply scenarioLoop_missing].
    intros Hp. unfold v in Hp.
    destruct (fileExists fs tf) eqn:Hex.
    + assert (Hr : reason v = None /\
                   map trim (allStepsForLevel scs (trim lvl))
                   = map trim (findStepsInTest fs tf)).
      { unfold v in *. rewrite (verifySteps_present fs tf _ Hex) in *. cbv zeta in *.
        destruct (length (allStepsForLevel scs (trim lvl))
                  =? length (findStepsInTest fs tf)) eqn:Hlen;
          simpl negb in *; cbv iota in *; [|discriminate Hp].
        apply Nat.eqb_eq in Hlen.
        rewrite <- (unequalIndices_nil_map _ _ Hlen).
        destruct (unequalIndices _ _); [split; reflexivity | discriminate Hp]. }
      destruct Hr as [Hr Hm].
      apply scenarioLoop_passed; [exact Hr|].
      unfold v. rewrite (verifySteps_actualSteps fs tf _ Hex). simpl skipn.
      now rewrite <- allStepsForLevel_concat.
    + unfold verifySteps in Hp. rewrite Hex in Hp. discriminate Hp.
Qed.

Lemma breakdown_follows_verdict_witness :
  Forall (fun s => passed (stepVerification s) = true /\
                   reason (stepVerification s) = None)
         (scenarioResults
            (snd (processLevel Fixtures.fsWithEmpty Fixtures.authSpec (lit "a")
                    (lit "auth") (parseScenarios Fixtures.specWithEmpty) (lit "unit")))).
Proof.
  destruct (breakdown_follows_verdict Fixtures.fsWithEmpty Fixtures.authSpec (lit "a")
              (lit "auth") (parseScenarios Fixtures.specWithEmpty) (lit "unit"))
    as (_ & _ & Hpassed & _).
  apply Hpassed. reflexivity.
Defined.

(** ** The summary of a run *)






(* ================================================================== *)
(** * Paths *)
(* ================================================================== *)

Lemma stripSuffix_app (x p : str) : stripSuffix p (x ++ p) = Some x.
Proof.
  unfold stripSuffix. rewrite rev_app_distr, stripPrefix_app.
  now rewrite rev_involutive.
Qed.

Lemma skipn_length_app {A : Type} (a b : list A) : skipn (length a) (a ++ b) = b.
Proof. induction a; simpl; auto. Qed.

Lemma startsWith_sep_free (q x : str) :
  Forall (fun c => (c =? slash)%N = false) x ->
  startsWith (q ++ [slash]) x = false.
Proof.
  intros Hx. unfold startsWith. revert x Hx.
  induction q as [|a q IH]; intros x Hx; cbn [app stripPrefix].
  - destruct Hx as [|c x Hc _]; [reflexivity|].
    rewrite N.eqb_sym, Hc. reflexivity.
  - destruct Hx as [|c x Hc Hx]; [reflexivity|].
    destruct (a =? c)%N; [now apply IH | reflexivity].
Qed.

Lemma lastIndexOfFrom_sep_free (q x : str) (i : Z) :
  Forall (fun c => (c =? slash)%N = false) x ->
  lastIndexOfFrom (slash :: q) x i = (-1)%Z.
Proof.
  intros Hx. revert i. induction Hx as [|c x Hc _ IH]; intros i;
    cbn [lastIndexOfFrom].
  - reflexivity.
  - rewrite IH. unfold startsWith. cbn [stripPrefix].
    rewrite N.eqb_sym, Hc. reflexivity.
Qed.

Lemma lastIndexOfFrom_after_folder (f f' x : str) (i : Z) :
  Forall (fun c => (c =? slash)%N = false) f' ->
  Forall (fun c => (c =? slash)%N = false) x ->
  lastIndexOfFrom (slash :: f ++ [slash]) (f' ++ slash :: x) i = (-1)%Z.
Proof.
  intros Hf Hx. revert i. induction Hf as [|c f' Hc _ IH]; intros i.
  - cbn [app lastIndexOfFrom].
    rewrite (lastIndexOfFrom_sep_free (f ++ [slash]) x (i + 1) Hx).
    unfold startsWith at 1. cbn [stripPrefix]. rewrite N.eqb_refl.
    pose proof (startsWith_sep_free f x Hx) as S. unfold startsWith in S.
    destruct (stripPrefix (f ++ [slash]) x); [discriminate S | reflexivity].
  - cbn [app lastIndexOfFrom]. rewrite IH.
    unfold startsWith. cbn [stripPrefix]. rewrite N.eqb_sym, Hc. reflexivity.
Qed.

Lemma lastIndexOfFrom_last (dir f x : str) (i : Z) :
  (0 <= i)%Z ->
  Forall (fun c => (c =? slash)%N = false) f ->
  Forall (fun c => (c =? slash)%N = false) x ->
  lastIndexOfFrom (slash :: f ++ [slash]) (dir ++ (slash :: f ++ [slash]) ++ x) i
  = (i + Z.of_nat (length dir))%Z.
Proof.
  intros Hi Hf Hx. revert i Hi. induction dir as [|c dir IH]; intros i Hi.
  - assert (Hhere : startsWith (slash :: f ++ [slash]) ((slash :: f ++ [slash]) ++ x)
                    = true)
      by (unfold startsWith; now rewrite stripPrefix_app).
    assert (Hlater : lastIndexOfFrom (slash :: f ++ [slash]) ((f ++ [slash]) ++ x) (i + 1)
                     = (-1)%Z).
    { rewrite <- app_assoc. apply lastIndexOfFrom_after_folder; assumption. }
    change ([] ++ (slash :: f ++ [slash]) ++ x) with (slash :: ((f ++ [slash]) ++ x)).
    cbn [lastIndexOfFrom].
    change (slash :: ((f ++ [slash]) ++ x)) with ((slash :: f ++ [slash]) ++ x).
    rewrite Hhere, Hlater. simpl. lia.
  - cbn [app lastIndexOfFrom]. rewrite IH by lia.
    replace (0 <=? i + 1 + Z.of_nat (length dir))%Z with true
      by (symmetry; apply Z.leb_le; lia).
    cbn [length]. lia.
Qed.

Lemma plain_no_slash (s : str) :
  Forall (fun c => isPlain c = true) s ->
  Forall (fun c => (c =? slash)%N = false) s.
Proof.
  intros H. eapply Forall_impl; [|exact H]. intros c Hc. cbv beta in *.
  destruct (c =? slash)%N eqn:E; [|reflexivity].
  apply N.eqb_eq in E. subst c. discriminate Hc.
Qed.

(** The mirroring of the folders.  For a spec file [dir/folder/name.md],
    where the folder name is made of letters, digits, [-] and [_] and the
    file name holds no slash, the relative key is [name] and the base
    directory computed by [main] is [dir], whatever [dir] holds (also the
    folder name itself); the test file of a level is then looked up from
    [dir/level/name]. *)
Theorem spec_path_mirror (dir folder name : str) :
  dir <> [] ->
  Forall (fun c => isPlain c = true) folder ->
  Forall (fun c => (c =? slash)%N = false) name ->
  let specguardFile := dir ++ [slash] ++ folder ++ [slash] ++ name ++ lit ".md" in
  relPathNoExt specguardFile folder = name /\
  baseDirOf specguardFile folder = dir /\
  forall fs scs lvl,
    testFile (snd (processLevel fs specguardFile (baseDirOf specguardFile folder)
                                (relPathNoExt specguardFile folder) scs lvl))
    = fst (resolveTestFile fs (joinPath [dir; trim lvl; name])).
Proof.
  intros Hdir Hplain Hname. cbv zeta.
  pose proof (plain_no_slash folder Hplain) as Hfolder.
  assert (Hmd : Forall (fun c => (c =? slash)%N = false) (name ++ lit ".md")).
  { apply Forall_app. split; [exact Hname | repeat constructor]. }
  assert (Hrel : relPathNoExt (dir ++ [slash] ++ folder ++ [slash] ++ name ++ lit ".md")
                              folder = name).
  { unfold relPathNoExt, lastIndexOf. cbv zeta.
    replace (dir ++ [slash] ++ folder ++ [slash] ++ name ++ lit ".md")
      with (dir ++ (slash :: folder ++ [slash]) ++ (name ++ lit ".md"))
      by (simpl; now rewrite <- !app_assoc).
    change ([slash] ++ folder ++ [slash]) with (slash :: folder ++ [slash]).
    rewrite (lastIndexOfFrom_last dir folder (name ++ lit ".md") 0) by (assumption || lia).
    replace (0 <=? 0 + Z.of_nat (length dir))%Z with true
      by (symmetry; apply Z.leb_le; lia).
    unfold substring.
    replace (Z.to_nat (0 + Z.of_nat (length dir)
                       + Z.of_nat (length (slash :: folder ++ [slash]))))
      with (length (slash :: folder ++ [slash]) + length dir) by lia.
    rewrite <- skipn_skipn, !skipn_length_app.
    now rewrite stripSuffix_app. }
  assert (Hbase : baseDirOf (dir ++ [slash] ++ folder ++ [slash] ++ name ++ lit ".md")
                            folder = dir).
  { unfold baseDirOf, dirname. cbv zeta.
    replace (dir ++ [slash] ++ folder ++ [slash] ++ name ++ lit ".md")
      with ((dir ++ slash :: folder) ++ slash :: (name ++ lit ".md"))
      by (simpl; now rewrite <- !app_assoc).
    rewrite split_app_sep, (split_no_sep slash (name ++ lit ".md") Hmd).
    rewrite removelast_last, join_split.
    assert (Ht : truthy (dir ++ slash :: folder) = true)
      by (destruct dir; [congruence | reflexivity]).
    rewrite Ht. change ([slash] ++ folder) with (slash :: folder).
    now rewrite stripSuffix_app. }
  split; [exact Hrel|]. split; [exact Hbase|].
  intros fs scs lvl. rewrite Hrel, Hbase. reflexivity.
Qed.

Lemma spec_path_mirror_witness :
  relPathNoExt (lit "/repo/specguard/tests/specguard/auth.md") (lit "specguard")
    = lit "auth" /\
  baseDirOf (lit "/repo/specguard/tests/specguard/auth.md") (lit "specguard")
    = lit "/repo/specguard/tests".
Proof.
  destruct (spec_path_mirror (lit "/repo/specguard/tests") (lit "specguard") (lit "auth"))
    as (Hrel & Hbase & _).
  - discriminate.
  - repeat constructor.
  - repeat constructor.
  - split; [exact Hrel | exact Hbase].
Defined.

(** ** joinPath *)

Lemma collapseSlashes_cons2 (c d : N) (s : str) :
  collapseSlashes (c :: d :: s)
  = if ((c =? slash) && (d =? slash))%N then collapseSlashes (d :: s)
    else c :: collapseSlashes (d :: s).
Proof. reflexivity. Qed.

Lemma noDoubleSlash_cons2 (c d : N) (s : str) :
  noDoubleSlash (c :: d :: s)
  = negb ((c =? slash) && (d =? slash))%N && noDoubleSlash (d :: s).
Proof. reflexivity. Qed.

Lemma collapseSlashes_head (c : N) (s : str) :
  exists t, collapseSlashes (c :: s) = c :: t.
Proof.
  revert c; induction s as [|d s IH]; intros c.
  - exists []. reflexivity.
  - rewrite collapseSlashes_cons2. destruct ((c =? slash) && (d =? slash))%N eqn:E.
    + apply andb_true_iff in E as [Ec Ed].
      apply N.eqb_eq in Ec, Ed. subst c d. apply IH.
    + eexists. reflexivity.
Qed.

Lemma collapseSlashes_normal (s : str) : noDoubleSlash (collapseSlashes s) = true.
Proof.
  induction s as [|c s IH]; [reflexivity|].
  destruct s as [|d s']; [reflexivity|].
  rewrite collapseSlashes_cons2. destruct ((c =? slash) && (d =? slash))%N eqn:E.
  - exact IH.
  - destruct (collapseSlashes_head d s') as (t & Ht).
    rewrite Ht in *. rewrite noDoubleSlash_cons2, E, IH. reflexivity.
Qed.

Lemma collapseSlashes_fixed (s : str) :
  noDoubleSlash s = true -> collapseSlashes s = s.
Proof.
  induction s as [|c s IH]; [reflexivity|].
  destruct s as [|d s']; [reflexivity|].
  rewrite noDoubleSlash_cons2, collapseSlashes_cons2. intros H.
  apply andb_true_iff in H as [Hcd Hrest].
  apply negb_true_iff in Hcd. rewrite Hcd. now rewrite IH.
Qed.

Lemma noDoubleSlash_cons (c : N) (s : str) :
  (c =? slash)%N = false -> noDoubleSlash s = true -> noDoubleSlash (c :: s) = true.
Proof.
  intros Hc Hs. destruct s as [|d s']; [reflexivity|].
  now rewrite noDoubleSlash_cons2, Hc, Hs.
Qed.

Lemma noDoubleSlash_segment (x tail : str) :
  Forall (fun c => (c =? slash)%N = false) x ->
  noDoubleSlash tail = true ->
  noDoubleSlash (x ++ tail) = true.
Proof.
  intros Hx Ht. induction Hx as [|c x Hc _ IH]; [exact Ht|].
  cbn [app]. now apply noDoubleSlash_cons.
Qed.

Lemma join_segments_normal (parts : list str) :
  Forall (fun p => p <> [] /\ Forall (fun c => (c =? slash)%N = false) p) parts ->
  noDoubleSlash (join [slash] parts) = true.
Proof.
  induction 1 as [|p parts [Hne Hp] Hrest IH]; [reflexivity|].
  destruct parts as [|q parts'].
  - simpl. rewrite <- (app_nil_r p). now apply noDoubleSlash_segment.
  - change (join [slash] (p :: q :: parts'))
      with (p ++ slash :: join [slash] (q :: parts')).
    apply noDoubleSlash_segment; [exact Hp|].
    inversion Hrest as [|? ? [Hq _] _]; subst.
    destruct q as [|d q']; [congruence|].
    assert (Hd : (d =? slash)%N = false).
    { inversion Hrest as [|? ? [_ Hq'] _]; subst. now inversion Hq'. }
    assert (Hj : exists t, join [slash] ((d :: q') :: parts') = d :: t)
      by (destruct parts'; eexists; reflexivity).
    destruct Hj as (t & Hj). rewrite Hj in *.
    rewrite noDoubleSlash_cons2, Hd, andb_false_r. exact IH.
Qed.

(** What [joinPath] returns holds no two slashes in a row, joining it
    again changes nothing, and empty parts do not count.  Parts that are
    plain names, non-empty and without a slash, are joined by single
    slashes and otherwise left as they are. *)
Theorem joinPath_normal (parts : list str) :
  noDoubleSlash (joinPath parts) = true /\
  joinPath [joinPath parts] = joinPath parts /\
  joinPath (filter truthy parts) = joinPath parts /\
  (Forall (fun p => p <> [] /\ Forall (fun c => (c =? slash)%N = false) p) parts ->
   joinPath parts = join [slash] parts).
Proof.
  split; [apply collapseSlashes_normal|]. split; [|split].
  - unfold joinPath at 1. cbn [filter].
    destruct (truthy (joinPath parts)) eqn:E.
    + cbn [join]. apply collapseSlashes_fixed, collapseSlashes_normal.
    + destruct (joinPath parts); [reflexivity | discriminate E].
  - unfold joinPath. f_equal. f_equal.
    induction parts as [|p parts IH]; [reflexivity|]. simpl.
    destruct (truthy p) eqn:E; simpl; [now rewrite E, IH | exact IH].
  - intros H. unfold joinPath.
    replace (filter truthy parts) with parts.
    + apply collapseSlashes_fixed. now apply join_segments_normal.
    + symmetry. apply forallb_filter_id. apply forallb_forall.
      rewrite Forall_forall in H. intros p Hp. apply truthy_true, (H p Hp).
Qed.

Lemma joinPath_normal_witness :
  joinPath [lit "/repo"; lit "unit"; lit "auth"] = lit "/repo/unit/auth" /\
  joinPath [lit "repo"; lit "unit"; lit "auth"] = lit "repo/unit/auth".
Proof.
  split; [reflexivity|].
  destruct (joinPath_normal [lit "repo"; lit "unit"; lit "auth"]) as (_ & _ & _ & H).
  apply H. repeat constructor; discriminate.
Defined.

(** ** dirname and basename *)

(** For a path [d/b] whose last part [b] holds no slash, [dirname] is [d]
    and [basename] is [b], so the two joined by a slash are the path
    again, unless [d] is empty.  For an empty [d], that is for a path
    directly below the root, and for a path without any slash, [dirname]
    is [.]: the root is never returned.  [basename] with an extension
    removes it from the end of the last part. *)
Theorem dirname_basename (d b e : str) :
  Forall (fun c => (c =? slash)%N = false) b ->
  Forall (fun c => (c =? slash)%N = false) e ->
  dirname (d ++ slash :: b) = (if truthy d then d else lit ".") /\
  basename (d ++ slash :: b) None = b /\
  (d <> [] ->
   dirname (d ++ slash :: b) ++ slash :: basename (d ++ slash :: b) None
   = d ++ slash :: b) /\
  dirname (slash :: b) = lit "." /\
  dirname b = lit "." /\
  basename b None = b /\
  (e <> [] -> basename (d ++ slash :: b ++ e) (Some e) = b).
Proof.
  intros Hb He.
  assert (Hdir : forall d', dirname (d' ++ slash :: b)
                            = (if truthy d' then d' else lit ".")).
  { intros d'. unfold dirname. cbv zeta.
    rewrite split_app_sep, (split_no_sep slash b Hb), removelast_last, join_split.
    reflexivity. }
  assert (Hbase : basename (d ++ slash :: b) None = b).
  { unfold basename. cbv zeta.
    rewrite split_app_sep, (split_no_sep slash b Hb), last_last. reflexivity. }
  split; [apply Hdir|]. split; [exact Hbase|]. split; [|split; [|split; [|split]]].
  - intros Hd. rewrite Hdir, Hbase. apply truthy_true in Hd. now rewrite Hd.
  - exact (Hdir []).
  - unfold dirname. cbv zeta. now rewrite (split_no_sep slash b Hb).
  - unfold basename. cbv zeta. now rewrite (split_no_sep slash b Hb).
  - intros Hne. unfold basename. cbv zeta.
    assert (Hbe : Forall (fun c => (c =? slash)%N = false) (b ++ e))
      by (apply Forall_app; now split).
    rewrite split_app_sep, (split_no_sep slash (b ++ e) Hbe), last_last.
    simpl orEmpty. apply truthy_true in Hne. rewrite Hne.
    now rewrite stripSuffix_app.
Qed.

Lemma dirname_basename_witness :
  dirname (lit "/repo/unit/auth.ts") = lit "/repo/unit" /\
  basename (lit "/repo/unit/auth.ts") (Some (lit ".ts")) = lit "auth" /\
  dirname (lit "/auth") = lit ".".
Proof.
  destruct (dirname_basename (lit "/repo/unit") (lit "auth") (lit ".ts"))
    as (_ & _ & _ & _ & _ & _ & Hext); [repeat constructor | repeat constructor |].
  destruct (dirname_basename (lit "/repo/unit") (lit "auth.ts") (lit ".ts"))
    as (Hdir & _); [repeat constructor | repeat constructor |].
  destruct (dirname_basename [] (lit "auth") (lit ".ts"))
    as (_ & _ & _ & Hroot & _); [repeat constructor | repeat constructor |].
  split; [exact Hdir|]. split; [|exact Hroot].
  apply Hext. discriminate.
Defined.

(** ** resolvePath *)



(* ================================================================== *)
(** * The command line *)
(* ================================================================== *)

Lemma parseArgsLoop_ok (args : list str) (o o' : CliOptions) :
  parseArgsLoop args o = inr o' ->
  (specguardFolderName o <> [] -> specguardFolderName o' <> []) /\
  (specguardFolderName o' = specguardFolderName o \/
   In (specguardFolderName o') args) /\
  (startsWith (lit "-") (searchDir o) = false ->
   startsWith (lit "-") (searchDir o') = false) /\
  (searchDir o' = searchDir o \/ In (searchDir o') args) /\
  (verbose o' = true -> verbose o = true \/ In (lit "--verbose") args \/ In (lit "-v") args) /\
  (help o' = true -> help o = true \/ In (lit "--help") args \/ In (lit "-h") args).
Proof.
  remember (length args) as n eqn:Hn.
  assert (Hlen : length args <= n) by lia. clear Hn.
  revert args Hlen o. induction n as [|n IH]; intros args Hlen o H.
  { destruct args; [|simpl in Hlen; lia].
    cbn [parseArgsLoop] in H. injection H as <-. tauto. }
  destruct args as [|arg rest].
  - cbn [parseArgsLoop] in H. injection H as <-. tauto.
  - cbn [parseArgsLoop] in H. simpl in Hlen.
    destruct (eqb arg (lit "--verbose") || eqb arg (lit "-v")) eqn:Ev.
    { apply IH in H; [|lia]. cbn [specguardFolderName searchDir verbose help] in H.
      destruct H as (H1 & H2 & H3 & H4 & H5 & H6).
      apply orb_true_iff in Ev. rewrite !eqb_eq in Ev.
      repeat split; try assumption.
      - destruct H2; [now left | right; now right].
      - destruct H4; [now left | right; now right].
      - intros _. right. destruct Ev as [-> | ->]; [left | right]; now left.
      - intros Hh. destruct (H6 Hh) as [|[|]]; [now left | |];
          right; [left | right]; now right. }
    destruct (eqb arg (lit "--specguard-folder-name")) eqn:Ef.
    { destruct rest as [|value rest']; [discriminate H|].
      destruct (truthy value) eqn:Et; [|discriminate H]. cbn [negb] in H.
      apply IH in H; [|simpl in Hlen; lia].
      cbn [specguardFolderName searchDir verbose help] in H.
      destruct H as (H1 & H2 & H3 & H4 & H5 & H6).
      apply truthy_true in Et.
      repeat split.
      - intros _. now apply H1.
      - right. destruct H2 as [-> | Hin]; [right; now left | right; now right].
      - exact H3.
      - destruct H4; [now left | right; right; now right].
      - intros Hv. destruct (H5 Hv) as [|[|]]; [now left | |];
          right; [left | right]; right; now right.
      - intros Hh. destruct (H6 Hh) as [|[|]]; [now left | |];
          right; [left | right]; right; now right. }
    destruct (eqb arg (lit "--help") || eqb arg (lit "-h")) eqn:Eh.
    { apply IH in H; [|lia]. cbn [specguardFolderName searchDir verbose help] in H.
      destruct H as (H1 & H2 & H3 & H4 & H5 & H6).
      apply orb_true_iff in Eh. rewrite !eqb_eq in Eh.
      repeat split; try assumption.
      - destruct H2; [now left | right; now right].
      - destruct H4; [now left | right; now right].
      - intros Hv. destruct (H5 Hv) as [|[|]]; [now left | |];
          right; [left | right]; now right.
      - intros _. right. destruct Eh as [-> | ->]; [left | right]; now left. }
    destruct (startsWith (lit "-") arg) eqn:Ed; [discriminate H|].
    apply IH in H; [|lia]. cbn [specguardFolderName searchDir verbose help] in H.
    destruct H as (H1 & H2 & H3 & H4 & H5 & H6).
    repeat split; try assumption.
    + destruct H2; [now left | right; now right].
    + intros _. now apply H3.
    + right. destruct H4 as [-> | Hin]; [now left | now right].
    + intros Hv. destruct (H5 Hv) as [|[|]]; [now left | |];
        right; [left | right]; now right.
    + intros Hh. destruct (H6 Hh) as [|[|]]; [now left | |];
        right; [left | right]; now right.
Qed.

(** What a successful [parseArgs] returns.  The folder name is never
    empty and the search directory never starts with a dash; each is its
    default or one of the arguments; a flag is set only when it was
    given. *)
Theorem parseArgs_ok (args : list str) (o : CliOptions) :
  parseArgs args = inr o ->
  specguardFolderName o <> [] /\
  (specguardFolderName o = lit "specguard" \/ In (specguardFolderName o) args) /\
  startsWith (lit "-") (searchDir o) = false /\
  (searchDir o = lit "." \/ In (searchDir o) args) /\
  (verbose o = true -> In (lit "--verbose") args \/ In (lit "-v") args) /\
  (help o = true -> In (lit "--help") args \/ In (lit "-h") args).
Proof.
  intros H. destruct (parseArgsLoop_ok args defaultOptions o H)
    as (H1 & H2 & H3 & H4 & H5 & H6).
  split; [apply H1; discriminate|]. split; [exact H2|].
  split; [apply H3; reflexivity|]. split; [exact H4|]. split.
  - intros Hv. destruct (H5 Hv) as [Hd|Hin]; [discriminate Hd | exact Hin].
  - intros Hh. destruct (H6 Hh) as [Hd|Hin]; [discriminate Hd | exact Hin].
Qed.

Lemma parseArgs_ok_witness :
  specguardFolderName
    (mkCliOptions false (lit "-v") (lit "tests") false) <> [] /\
  parseArgs [lit "--specguard-folder-name"; lit "-v"; lit "tests"]
  = inr (mkCliOptions false (lit "-v") (lit "tests") false).
Proof.
  split; [|reflexivity].
  apply (parseArgs_ok [lit "--specguard-folder-name"; lit "-v"; lit "tests"]
           (mkCliOptions false (lit "-v") (lit "tests") false)).
  reflexivity.
Defined.

(** Where [parseArgs] stops with an error, the argument that caused it
    is among the arguments: an unknown option starts with a dash and is
    none of the five known ones, and a missing folder name means that the
    option for it was given. *)
Theorem parseArgs_error (args : list str) (e : ArgError) :
  parseArgs args = inl e ->
  match e with
  | FolderNameRequired => In (lit "--specguard-folder-name") args
  | UnknownOption arg =>
      In arg args /\ startsWith (lit "-") arg = true /\
      ~ In arg [lit "--verbose"; lit "-v"; lit "--specguard-folder-name";
                lit "--help"; lit "-h"]
  end.
Proof.
  unfold parseArgs. generalize defaultOptions.
  remember (length args) as n eqn:Hn.
  assert (Hlen : length args <= n) by lia. clear Hn.
  revert args Hlen. induction n as [|n IH]; intros args Hlen o H.
  { destruct args; [discriminate H | simpl in Hlen; lia]. }
  destruct args as [|arg rest]; [discriminate H|].
  cbn [parseArgsLoop] in H. simpl in Hlen.
  assert (Hnext : forall rest' o',
             length rest' <= n -> (forall a, In a rest' -> In a (arg :: rest)) ->
             parseArgsLoop rest' o' = inl e ->
             match e with
             | FolderNameRequired => In (lit "--specguard-folder-name") (arg :: rest)
             | UnknownOption a =>
                 In a (arg :: rest) /\ startsWith (lit "-") a = true /\
                 ~ In a [lit "--verbose"; lit "-v"; lit "--specguard-folder-name";
                         lit "--help"; lit "-h"]
             end).
  { intros rest' o' Hl Hsub Hr. specialize (IH rest' Hl o' Hr).
    destruct e; [now apply Hsub|].
    destruct IH as (Hin & Hrest). split; [now apply Hsub | exact Hrest]. }
  destruct (eqb arg (lit "--verbose") || eqb arg (lit "-v")) eqn:Ev.
  { refine (Hnext rest _ _ _ H); [lia | intros a Ha; now right]. }
  destruct (eqb arg (lit "--specguard-folder-name")) eqn:Ef.
  { apply eqb_eq in Ef. subst arg.
    destruct rest as [|value rest'].
    - injection H as <-. now left.
    - destruct (truthy value) eqn:Et; cbn [negb] in H.
      + refine (Hnext rest' _ _ _ H); [simpl in Hlen; lia | intros a Ha; right; now right].
      + injection H as <-. now left. }
  destruct (eqb arg (lit "--help") || eqb arg (lit "-h")) eqn:Eh.
  { refine (Hnext rest _ _ _ H); [lia | intros a Ha; now right]. }
  destruct (startsWith (lit "-") arg) eqn:Ed.
  - injection H as <-. split; [now left|]. split; [exact Ed|].
    apply orb_false_iff in Ev as [Ev1 Ev2]. apply orb_false_iff in Eh as [Eh1 Eh2].
    rewrite eqb_neq in Ev1, Ev2, Ef, Eh1, Eh2.
    intros [E|[E|[E|[E|[E|[]]]]]]; congruence.
  - refine (Hnext rest _ _ _ H); [lia | intros a Ha; now right].
Qed.

Lemma parseArgs_error_witness :
  In (lit "--fast") [lit "-v"; lit "--fast"] /\
  parseArgs [lit "-v"; lit "--fast"] = inl (UnknownOption (lit "--fast")).
Proof.
  split; [|reflexivity].
  apply (parseArgs_error [lit "-v"; lit "--fast"] (UnknownOption (lit "--fast"))).
  reflexivity.
Defined.

(* ================================================================== *)
(** * The verbose output *)
(* ================================================================== *)

Import Output.

Lemma forRange_singletons {A : Type} (g : nat -> A) (body : nat -> list A -> list A)
    (lo hi : nat) :
  (forall i acc, lo <= i < hi -> body i acc = acc ++ [g i]) ->
  forRange lo hi body [] = map g (seq lo (hi - lo)).
Proof.
  intros H. rewrite (forRange_append (fun i => [g i]) body lo hi H).
  induction (seq lo (hi - lo)) as [|i l IH]; simpl; [reflexivity | now rewrite IH].
Qed.

(** The lines of the verbose output.  For a missing file there is a
    header and one line per expected step; otherwise there is one line
    per index of the longer of the two lists.  Where the expected steps
    are non-blank and agree with the actual ones after trimming, as they
    do when [verifySteps] passes, every line is the check line of the
    trimmed step. *)
Theorem printVerboseVerification_lines (r : StepVerificationResult) (indent : str) :
  length (printVerboseVerification r indent)
  = match reason r with
    | Some MissingFile => S (length (expectedSteps r))
    | _ => Nat.max (length (expectedSteps r)) (length (actualSteps r))
    end /\
  (reason r <> Some MissingFile ->
   map trim (expectedSteps r) = map trim (actualSteps r) ->
   Forall (fun s => trim s <> []) (expectedSteps r) ->
   printVerboseVerification r indent
   = map (fun s => okLine indent (trim s)) (expectedSteps r)).
Proof.
  assert (Hsteps : forall E A : list str,
             length (forRange 0 (length E)
               (fun i out =>
                  let expected := nth_error E i in
                  let actual := nth_error A i in
                  if negb (truthy (orEmpty actual)) then
                    out ++ [missingLine indent (shown expected)]
                  else if strictEq expected actual then
                    out ++ [okLine indent (shown expected)]
                  else out ++ [wrongLine indent (shown expected)]) [])
             = length E).
  { intros E A.
    rewrite (forRange_singletons
               (fun i =>
                  if negb (truthy (orEmpty (nth_error A i))) then
                    missingLine indent (shown (nth_error E i))
                  else if strictEq (nth_error E i) (nth_error A i) then
                    okLine indent (shown (nth_error E i))
                  else wrongLine indent (shown (nth_error E i)))).
    - now rewrite length_map, length_seq, Nat.sub_0_r.
    - intros i acc _. cbv zeta.
      destruct (negb _); [reflexivity|]. now destruct (strictEq _ _). }
  assert (Hextra : forall E A : list str,
             length (if length E <? length A then
                       forRange (length E) (length A)
                         (fun i out => out ++ [extraLine indent (shown (nth_error A i))]) []
                     else [])
             = length A - length E).
  { intros E A. destruct (length E <? length A) eqn:Elt.
    - rewrite (forRange_singletons (fun i => extraLine indent (shown (nth_error A i))))
        by reflexivity.
      now rewrite length_map, length_seq.
    - apply Nat.ltb_ge in Elt. simpl. lia. }
  assert (Hother : length (let normalizedExpected := map JS.trim (expectedSteps r) in
                           let normalizedActual := map JS.trim (actualSteps r) in
                           forRange 0 (length normalizedExpected)
                             (fun i out =>
                                let expected := nth_error normalizedExpected i in
                                let actual := nth_error normalizedActual i in
                                if negb (truthy (orEmpty actual)) then
                                  out ++ [missingLine indent (shown expected)]
                                else if strictEq expected actual then
                                  out ++ [okLine indent (shown expected)]
                                else out ++ [wrongLine indent (shown expected)]) []
                           ++ (if length normalizedExpected <? length normalizedActual then
                                 forRange (length normalizedExpected) (length normalizedActual)
                                   (fun i out =>
                                      out ++ [extraLine indent
                                                (shown (nth_error normalizedActual i))]) []
                               else []))
                   = Nat.max (length (expectedSteps r)) (length (actualSteps r))).
  { cbv zeta. rewrite length_app, Hsteps, Hextra, !length_map. lia. }
  split.
  - unfold printVerboseVerification.
    destruct (reason r) as [[| |]|]; try exact Hother.
    simpl. now rewrite length_map.
  - intros Hr Heq Hnb. unfold printVerboseVerification.
    assert (Hlen : length (expectedSteps r) = length (actualSteps r)).
    { pose proof (f_equal (@length str) Heq) as L. now rewrite !length_map in L. }
    assert (Hbody :
      (let normalizedExpected := map JS.trim (expectedSteps r) in
       let normalizedActual := map JS.trim (actualSteps r) in
       forRange 0 (length normalizedExpected)
         (fun i out =>
            let expected := nth_error normalizedExpected i in
            let actual := nth_error normalizedActual i in
            if negb (truthy (orEmpty actual)) then
              out ++ [missingLine indent (shown expected)]
            else if strictEq expected actual then
              out ++ [okLine indent (shown expected)]
            else out ++ [wrongLine indent (shown expected)]) []
       ++ (if length normalizedExpected <? length normalizedActual then
             forRange (length normalizedExpected) (length normalizedActual)
               (fun i out =>
                  out ++ [extraLine indent (shown (nth_error normalizedActual i))]) []
           else []))
      = map (fun s => okLine indent (trim s)) (expectedSteps r)).
    { cbv zeta. rewrite !length_map.
      replace (length (expectedSteps r) <? length (actualSteps r)) with false
        by (symmetry; apply Nat.ltb_ge; lia).
      rewrite app_nil_r.
      rewrite (forRange_singletons
                 (fun i => okLine indent (trim (nth i (expectedSteps r) [])))).
      - rewrite Nat.sub_0_r.
        rewrite <- (map_map (fun i => nth i (expectedSteps r) [])
                            (fun s => okLine indent (trim s))).
        f_equal. clear. induction (expectedSteps r) as [|x l IH]; [reflexivity|].
        simpl. f_equal. rewrite <- seq_shift, map_map. exact IH.
      - intros i acc [_ Hi]. cbv zeta.
        change (map JS.trim) with (map trim).
        rewrite <- Heq.
        rewrite (nth_error_nth_default (map trim (expectedSteps r)) i [])
          by (now rewrite length_map).
        rewrite nth_map_trim. simpl.
        rewrite Forall_forall in Hnb.
        assert (Hin : In (nth i (expectedSteps r) []) (expectedSteps r))
          by (apply nth_In; exact Hi).
        specialize (Hnb _ Hin). apply truthy_true in Hnb. rewrite Hnb.
        simpl. now rewrite eqb_refl. }
    destruct (reason r) as [[| |]|]; try exact Hbody. congruence.
Qed.

Lemma printVerboseVerification_lines_witness :
  printVerboseVerification
    (verifySteps Fixtures.fsAuth Fixtures.authTest
                 [lit "Validate input"; lit " Check user "]) (lit "  ")
  = [okLine (lit "  ") (lit "Validate input"); okLine (lit "  ") (lit "Check user")].
Proof.
  destruct (printVerboseVerification_lines
              (verifySteps Fixtures.fsAuth Fixtures.authTest
                           [lit "Validate input"; lit " Check user "]) (lit "  "))
    as (_ & Hok).
  rewrite Hok.
  - reflexivity.
  - discriminate.
  - reflexivity.
  - repeat constructor; vm_compute; discriminate.
Defined.

(* ================================================================== *)
(** * The extractors on the layout of the spec files *)
(* ================================================================== *)

Lemma fold_stepsLine_steps (ss acc : list Step) :
  Forall goodStep ss ->
  fold_left stepsLine ss (true, acc) = (true, acc ++ ss).
Proof.
  intros H. revert acc.
  induction H as [|s ss (Hb & _ & Hf & _ & _) _ IH]; intros acc; simpl.
  - now rewrite app_nil_r.
  - assert (Hfs : startsWith fenceSpecguard s = false)
      by exact (startsWith_app_false fence (lit "specguard") s Hf).
    unfold stepsLine at 2. rewrite Hfs, Hf. cbn [fst snd andb].
    apply truthy_true in Hb. rewrite Hb. rewrite IH. now rewrite <- app_assoc.
Qed.

Lemma fold_stepsLine_scenario (sc : Scenario) (acc : list Step) :
  goodScenario sc ->
  fold_left stepsLine (formatScenario sc) (false, acc) = (false, acc ++ steps sc).
Proof.
  intros (_ & _ & Hsteps & _). unfold formatScenario.
  rewrite fold_left_app. cbn [fold_left].
  assert (E1 : stepsLine (false, acc) (lit "## " ++ name sc) = (false, acc))
    by reflexivity.
  assert (E2 : stepsLine (false, acc) (lit "levels: " ++ join (lit ", ") (levels sc))
               = (false, acc)) by reflexivity.
  assert (E3 : stepsLine (false, acc) fenceSpecguard = (true, acc)) by reflexivity.
  rewrite E1, E2, E3, fold_left_app, (fold_stepsLine_steps _ _ Hsteps).
  reflexivity.
Qed.

(** On a text in the layout of the spec files the three readers agree:
    [extractSteps] gives the steps of all the scenarios in order, which
    is what the scenarios of [extractScenarios] hold, and [extractLevels]
    gives the levels of the first scenario. *)
Theorem extractors_on_layout (fs : FileSystem) (filePath : str)
    (sc : Scenario) (rest : list Scenario) :
  Forall (fun s => name s <> [] /\ goodScenario s) (sc :: rest) ->
  fs filePath = Some (formatSpec (sc :: rest)) ->
  extractScenarios fs filePath = Some (sc :: rest) /\
  extractSteps fs filePath = Some (flat_map steps (sc :: rest)) /\
  extractLevels fs filePath = Some (levels sc).
Proof.
  intros Hgood Hfs.
  assert (Hlines : split newline (formatSpec (sc :: rest))
                   = flat_map formatScenario (sc :: rest)).
  { unfold formatSpec. apply split_join; [simpl; discriminate|].
    apply Forall_flat_map. eapply Forall_impl; [|exact Hgood].
    intros s [_ Hg]. now apply formatScenario_lines. }
  unfold extractScenarios, extractSteps, extractLevels, readFile. rewrite Hfs.
  split; [|split].
  - f_equal. unfold parseScenarios. rewrite Hlines.
    now rewrite (fold_parseLine_spec _ initialState Hgood).
  - f_equal. unfold stepsOfSpec. rewrite Hlines.
    assert (G : forall scs acc,
               Forall (fun s => name s <> [] /\ goodScenario s) scs ->
               fold_left stepsLine (flat_map formatScenario scs) (false, acc)
               = (false, acc ++ flat_map steps scs)).
    { induction scs as [|s scs IH]; intros acc H; cbn [flat_map].
      - simpl. now rewrite app_nil_r.
      - inversion H as [|? ? [_ Hg] Hrest]; subst.
        rewrite fold_left_app, (fold_stepsLine_scenario s acc Hg), IH by exact Hrest.
        now rewrite <- app_assoc. }
    now rewrite (G (sc :: rest) [] Hgood).
  - f_equal. rewrite Hlines.
    inversion Hgood as [|? ? [_ (Hname & Hlevels & _)] _]; subst.
    cbn [flat_map formatScenario app firstLevels].
    change (matchLevels (lit "## " ++ name sc)) with (@None str). cbv iota.
    assert (M : matchLevels (lit "levels:" ++ lit " " ++ join (lit ", ") (levels sc))
                = Some (join (lit ", ") (levels sc))).
    { pose proof (matchLevels_capture (lit " ") (join (lit ", ") (levels sc)) []) as M.
      rewrite !app_nil_r in M. apply M.
      - repeat constructor.
      - now apply levels_csv_start.
      - apply takeWhile_all.
        apply join_Forall; [repeat constructor|].
        eapply Forall_impl; [|exact Hlevels]. intros l (_ & _ & _ & Hd). exact Hd. }
    change (matchLevels (lit "levels: " ++ join (lit ", ") (levels sc)))
      with (matchLevels (lit "levels:" ++ lit " " ++ join (lit ", ") (levels sc))).
    rewrite M. unfold parseLevels. simpl orEmpty.
    change (filter truthy (map trim (split comma (trim (join (lit ", ") (levels sc))))))
      with (levelEntries (trim (join (lit ", ") (levels sc)))).
    now rewrite levelEntries_trim, levelEntries_join.
Qed.

Lemma extractors_on_layout_witness :
  extractSteps
    (Fixtures.oneFile Fixtures.authSpec
       (formatSpec [Fixtures.loginScenario; Fixtures.logoutScenario]))
    Fixtures.authSpec
  = Some [lit "Validate input"; lit "  Check user"; lit "Drop session"] /\
  extractLevels
    (Fixtures.oneFile Fixtures.authSpec
       (formatSpec [Fixtures.loginScenario; Fixtures.logoutScenario]))
    Fixtures.authSpec
  = Some [lit "unit"; lit "e2e"].
Proof.
  destruct (extractors_on_layout
              (Fixtures.oneFile Fixtures.authSpec
                 (formatSpec [Fixtures.loginScenario; Fixtures.logoutScenario]))
              Fixtures.authSpec Fixtures.loginScenario [Fixtures.logoutScenario])
    as (_ & Hsteps & Hlevels).
  - repeat constructor; try discriminate; try reflexivity;
      try (vm_compute; discriminate).
  - reflexivity.
  - split; [exact Hsteps | exact Hlevels].
Defined.

(* ================================================================== *)
(** * From the spec file to the verdict *)
(* ================================================================== *)

Lemma map_trim_trim (l : list str) : map trim (map trim l) = map trim l.
Proof.
  rewrite map_map. apply map_ext. intros s. apply trim_idempotent.
Qed.

Lemma unequalIndices_trim (exp act : list Step) :
  unequalIndices (map trim exp) act = unequalIndices exp act /\
  map (mismatchAt (map trim exp) act) (unequalIndices exp act)
  = map (mismatchAt exp act) (unequalIndices exp act).
Proof.
  unfold unequalIndices, mismatchAt. rewrite length_map. split.
  - apply filter_ext. intros i. now rewrite nth_map_trim, trim_idempotent.
  - apply map_ext. intros i. now rewrite nth_map_trim, trim_idempotent.
Qed.

(** White space around the expected steps does not count: with the
    trimmed steps [verifySteps] returns the same verdict and reason, and,
    for a file that exists, the same missing, extra and mismatched
    steps. *)
Theorem verifySteps_trimmed_expected (fs : FileSystem) (testFile : str)
    (exp : list Step) :
  let r := verifySteps fs testFile exp in
  let r' := verifySteps fs testFile (map trim exp) in
  passed r' = passed r /\ reason r' = reason r /\
  actualSteps r' = actualSteps r /\
  (fileExists fs testFile = true ->
   missingSteps r' = missingSteps r /\ extraSteps r' = extraSteps r /\
   mismatchedSteps r' = mismatchedSteps r).
Proof.
  cbv zeta. destruct (fileExists fs testFile) eqn:Hex.
  - rewrite !(verifySteps_present fs testFile _ Hex). cbv zeta.
    rewrite map_trim_trim, !length_map.
    destruct (unequalIndices_trim exp (findStepsInTest fs testFile)) as [E1 E2].
    rewrite E1, E2.
    destruct (negb (length exp =? length (findStepsInTest fs testFile))).
    + simpl. tauto.
    + destruct (map (mismatchAt exp (findStepsInTest fs testFile))
                    (unequalIndices exp (findStepsInTest fs testFile)));
        simpl; tauto.
  - unfold verifySteps. rewrite Hex. simpl. repeat split. discriminate.
Qed.

(** A test file that lists the steps of a level as markers, in order,
    passes, and so does every scenario of its breakdown.  The markers may
    hold the steps with other white space around them than the spec file
    has; the steps themselves are non-blank and hold no line terminator. *)
Theorem matching_test_file_passes (fs : FileSystem)
    (specguardFile baseDir relPath : str) (scs : list Scenario) (lvl : TestLevel)
    (bodies : list Step) :
  let expected := flat_map steps (filter (hasLevel (trim lvl)) scs) in
  let path := fst (resolveTestFile fs (joinPath [baseDir; trim lvl; relPath])) in
  Forall (fun s => s <> [] /\ Forall (fun c => isDot c = true) s) bodies ->
  map trim bodies = map trim expected ->
  fs path = Some (Fixtures.text (map Fixtures.slashMarker bodies)) \/
  fs path = Some (Fixtures.text (map Fixtures.hashMarker bodies)) ->
  let run := processLevel fs specguardFile baseDir relPath scs lvl in
  filePassed (snd run) = true /\ fileReason (snd run) = None /\
  testFile (snd run) = path /\
  Forall (fun s => passed (stepVerification s) = true)
         (scenarioResults (snd run)).
Proof.
  intros expected path Hbodies Htrim Hfile run.
  assert (Hex : fileExists fs path = true)
    by (unfold fileExists; destruct Hfile as [-> | ->]; reflexivity).
  assert (Hact : findStepsInTest fs path = bodies).
  { unfold findStepsInTest, readFile. rewrite Hex. simpl negb. cbv iota.
    assert (Hflat : forall mk,
               (forall s, s <> [] -> Forall (fun c => isDot c = true) s ->
                          matchStep (mk s) = Some s) ->
               forall l,
                 Forall (fun s => s <> [] /\ Forall (fun c => isDot c = true) s) l ->
                 flat_map (fun line => match matchStep line with
                                       | Some s => [s] | None => [] end)
                          (map mk l) = l).
    { intros mk Hmk l Hl. induction Hl as [|s ss [Hne Hdot] _ IH]; simpl;
        [reflexivity|].
      rewrite (Hmk s Hne Hdot). simpl. now f_equal. }
    destruct Hfile as [-> | ->]; rewrite stepsOfContent_text.
    - apply Hflat; [|exact Hbodies].
      intros s Hne Hdot. apply (matchStep_plain_marker s Hne Hdot).
    - apply Forall_map. eapply Forall_impl; [|exact Hbodies].
      intros s [_ Hdot]. apply (plain_marker_no_newline s Hdot).
    - apply Hflat; [|exact Hbodies].
      intros s Hne Hdot. apply (matchStep_plain_marker s Hne Hdot).
    - apply Forall_map. eapply Forall_impl; [|exact Hbodies].
      intros s [_ Hdot]. apply (plain_marker_no_newline s Hdot). }
  assert (Hv : passed (verifySteps fs path expected) = true /\
               reason (verifySteps fs path expected) = None /\
               actualSteps (verifySteps fs path expected) = bodies).
  { rewrite (verifySteps_present fs path expected Hex). cbv zeta. rewrite Hact.
    assert (Hlen : length expected = length bodies).
    { pose proof (f_equal (@length str) Htrim) as L. now rewrite !length_map in L. }
    pose proof Hlen as Hb. apply Nat.eqb_eq in Hb. rewrite Hb. simpl negb. cbv iota.
    assert (Hnil : unequalIndices expected bodies = [])
      by (apply (unequalIndices_nil_map _ _ Hlen); now symmetry).
    rewrite Hnil. simpl. repeat split. }
  destruct Hv as (Hp & Hr & Ha).
  assert (Hrun : allStepsForLevel scs (trim lvl) = expected)
    by apply allStepsForLevel_concat.
  subst run. unfold processLevel. cbv zeta.
  cbn [snd filePassed fileReason testFile scenarioResults].
  fold path. rewrite Hrun.
  split; [exact Hp|]. split; [exact Hr|]. split; [reflexivity|].
  eapply Forall_impl; [|apply (scenarioLoop_passed _ (trim lvl) scs 0 Hr)].
  - intros s [Hs _]. exact Hs.
  - rewrite Ha. simpl skipn. now symmetry.
Qed.

Lemma matching_test_file_passes_witness :
  filePassed
    (snd (processLevel Fixtures.fsMatching Fixtures.authSpec (lit "a") (lit "auth")
            (parseScenarios Fixtures.specWithEmpty) (lit "unit"))) = true.
Proof.
  destruct (matching_test_file_passes Fixtures.fsMatching Fixtures.authSpec (lit "a")
              (lit "auth") (parseScenarios Fixtures.specWithEmpty) (lit "unit")
              [lit "Validate input"; lit "  Check user "]) as (Hp & _).
  - repeat constructor; discriminate.
  - reflexivity.
  - left. reflexivity.
  - exact Hp.
Defined.

(* ================================================================== *)
(** * The root of the checkout *)
(* ================================================================== *)

Lemma join_app_last (sep : str) (l : list str) (x : str) :
  l <> [] -> join sep (l ++ [x]) = join sep l ++ sep ++ x.
Proof.
  induction l as [|a l IH]; intros Hne; [congruence|].
  destruct l as [|b l'].
  - reflexivity.
  - change (join sep ((a :: b :: l') ++ [x]))
      with (a ++ sep ++ join sep ((b :: l') ++ [x])).
    rewrite IH by discriminate.
    change (join sep (a :: b :: l')) with (a ++ sep ++ join sep (b :: l')).
    now rewrite <- !app_assoc.
Qed.

(** [dirname] gives [.] or cuts the path at its last slash. *)
Lemma dirname_cut (p : str) :
  dirname p = lit "." \/
  exists b, p = dirname p ++ slash :: b /\
            Forall (fun c => (c =? slash)%N = false) b.
Proof.
  unfold dirname. cbv zeta.
  pose proof (split_not_nil slash p) as Hne.
  pose proof (split_pieces_no_sep slash p) as Hp.
  pose proof (join_split slash p) as Hj.
  remember (split slash p) as pieces eqn:Epieces. clear Epieces.
  destruct (truthy (join [slash] (removelast pieces))) eqn:E; [|now left].
  right. exists (last pieces []).
  rewrite (app_removelast_last [] Hne) in Hj, Hp.
  split.
  - rewrite <- Hj. apply join_app_last.
    intros Hnil. rewrite Hnil in E. discriminate E.
  - apply Forall_app in Hp as [_ Hp]. now inversion Hp.
Qed.

Lemma dirname_not_empty (p : str) : dirname p <> [].
Proof.
  unfold dirname. cbv zeta.
  destruct (truthy (join [slash] (removelast (split slash p)))) eqn:E.
  - now apply truthy_true.
  - discriminate.
Qed.

Lemma findGitRootLoop_done (fs : FileSystem) (rounds : nat) (cur prev : str) :
  length cur + 2 <= rounds \/ (cur = lit "." /\ 1 <= rounds) ->
  exists result, findGitRootLoop fs rounds cur prev = Some result.
Proof.
  revert cur prev. induction rounds as [|rounds IH]; intros cur prev H.
  - exfalso. destruct H as [H|[_ H]]; lia.
  - cbn [findGitRootLoop].
    destruct (negb (eqb cur (lit "/")) && negb (eqb cur (lit "."))
              && negb (eqb cur prev)) eqn:Econd; [|eexists; reflexivity].
    destruct (fileExists fs (joinPath [cur; lit ".git"])); [eexists; reflexivity|].
    apply IH.
    destruct H as [H|[Hdot _]].
    + destruct (dirname_cut cur) as [Hd|(b & Hb & _)].
      * right. split; [exact Hd | lia].
      * left. apply (f_equal (@length N)) in Hb.
        rewrite length_app in Hb. simpl in Hb. lia.
    + subst cur. simpl in Econd. discriminate Econd.
Qed.

(** The walk of [findGitRoot] ends: the bound on its rounds is never
    reached, for any file tree and start path. *)
Theorem findGitRoot_terminates (fs : FileSystem) (startPath : str) :
  exists result,
    findGitRootLoop fs (length startPath + 2) startPath [] = Some result /\
    findGitRoot fs startPath = result.
Proof.
  destruct (findGitRootLoop_done fs (length startPath + 2) startPath [])
    as (result & H); [left; lia|].
  exists result. split; [exact H|]. unfold findGitRoot. now rewrite H.
Qed.

Lemma cut_prefix (a rest J b : str) :
  a ++ slash :: rest = J ++ slash :: b ->
  Forall (fun c => (c =? slash)%N = false) b ->
  a = J \/ exists rest', J = a ++ slash :: rest'.
Proof.
  revert J. induction a as [|x a IH]; intros J H Hb.
  - destruct J as [|y J']; [now left|].
    simpl in H. injection H as <- H. right. now exists J'.
  - destruct J as [|y J'].
    + simpl in H. injection H as -> H. exfalso.
      assert (Hin : In slash b) by (rewrite <- H; apply in_or_app; right; now left).
      rewrite Forall_forall in Hb. specialize (Hb slash Hin).
      rewrite N.eqb_refl in Hb. discriminate.
    + simpl in H. injection H as <- H.
      destruct (IH J' H Hb) as [-> | (rest' & ->)]; [now left|].
      right. now exists rest'.
Qed.

Lemma findGitRootLoop_found (fs : FileSystem) (rounds : nat) (cur prev r : str) :
  findGitRootLoop fs rounds cur prev = Some (Some r) ->
  fileExists fs (joinPath [r; lit ".git"]) = true /\
  (r = cur \/ exists rest, cur = r ++ slash :: rest) /\
  (cur <> [] -> r <> []) /\
  (forall a rest,
      a = cur \/ (exists rest', cur = a ++ slash :: rest') ->
      a = r ++ slash :: rest ->
      fileExists fs (joinPath [a; lit ".git"]) = false).
Proof.
  revert cur prev. induction rounds as [|rounds IH]; intros cur prev H;
    [discriminate H|].
  cbn [findGitRootLoop] in H.
  destruct (negb (eqb cur (lit "/")) && negb (eqb cur (lit "."))
            && negb (eqb cur prev)) eqn:Econd.
  - destruct (fileExists fs (joinPath [cur; lit ".git"])) eqn:Ex.
    + injection H as <-. split; [exact Ex|]. split; [now left|]. split; [auto|].
      intros a rest [-> | (rest' & Hc)] Ha.
      * exfalso. apply (f_equal (@length N)) in Ha.
        rewrite length_app in Ha. simpl in Ha. lia.
      * exfalso. rewrite Ha in Hc. apply (f_equal (@length N)) in Hc.
        repeat rewrite length_app in Hc. simpl in Hc.
        repeat rewrite length_app in Hc. simpl in Hc. lia.
    + destruct (IH _ _ H) as (Hgit & Hanc & Hne & Hclose).
      destruct (dirname_cut cur) as [Hd|(b & Hb & Hbfree)].
      { exfalso. rewrite Hd in H. destruct rounds; [discriminate H|].
        cbn [findGitRootLoop] in H. simpl in H. discriminate H. }
      split; [exact Hgit|]. split; [|split].
      * right. destruct Hanc as [-> | (rest & Hr)]; [now exists b|].
        exists (rest ++ slash :: b). rewrite Hb at 1. rewrite Hr.
        now rewrite <- app_assoc.
      * intros _. apply Hne, dirname_not_empty.
      * intros a rest [-> | (rest' & Hc)] Ha; [exact Ex|].
        apply (Hclose a rest); [|exact Ha].
        rewrite Hb in Hc. symmetry in Hc.
        destruct (cut_prefix a rest' (dirname cur) b Hc Hbfree) as [E | (r' & E)];
          [now left | right; now exists r'].
  - injection H as H.
    destruct (eqb cur (lit "/")) eqn:Eroot; [|discriminate H].
    destruct (fileExists fs (joinPath [cur; lit ".git"])) eqn:Ex; [|discriminate H].
    injection H as <-. split; [exact Ex|]. split; [now left|]. split; [auto|].
    intros a rest [-> | (rest' & Hc)] Ha.
    + exfalso. apply (f_equal (@length N)) in Ha.
      rewrite length_app in Ha. simpl in Ha. lia.
    + exfalso. rewrite Ha in Hc. apply (f_equal (@length N)) in Hc.
      repeat rewrite length_app in Hc. simpl in Hc.
      repeat rewrite length_app in Hc. simpl in Hc. lia.
Qed.

(** What [findGitRoot] finds is the closest checkout: the result holds
    [.git], it is the start path or the start path cut at one of its
    slashes, and no longer cut of the start path holds [.git].  The root
    [/] is only found for the start path [/] itself and for start paths
    that begin with two slashes. *)
Theorem findGitRoot_closest (fs : FileSystem) (startPath root : str) :
  findGitRoot fs startPath = Some root ->
  fileExists fs (joinPath [root; lit ".git"]) = true /\
  (root = startPath \/ exists rest, startPath = root ++ slash :: rest) /\
  (forall a rest,
      a = startPath \/ (exists rest', startPath = a ++ slash :: rest') ->
      a = root ++ slash :: rest ->
      fileExists fs (joinPath [a; lit ".git"]) = false) /\
  (root = lit "/" ->
   startPath = lit "/" \/ startsWith (lit "//") startPath = true).
Proof.
  unfold findGitRoot.
  destruct (findGitRootLoop fs (length startPath + 2) startPath []) as [[r|]|] eqn:E;
    try discriminate.
  intros [= <-].
  destruct (findGitRootLoop_found fs _ _ _ _ E) as (Hgit & Hanc & _ & Hclose).
  split; [exact Hgit|]. split; [exact Hanc|]. split; [exact Hclose|].
  intros ->. destruct Hanc as [<- | (rest & ->)]; [now left | now right].
Qed.

Lemma findGitRoot_closest_witness :
  findGitRoot Fixtures.fsCheckout (lit "/repo/tests/unit") = Some (lit "/repo") /\
  fileExists Fixtures.fsCheckout (joinPath [lit "/repo/tests"; lit ".git"]) = false.
Proof.
  split; [reflexivity|].
  destruct (findGitRoot_closest Fixtures.fsCheckout (lit "/repo/tests/unit") (lit "/repo"))
    as (_ & _ & Hclose & _); [reflexivity|].
  apply (Hclose (lit "/repo/tests") (lit "tests")).
  - right. exists (lit "unit"). reflexivity.
  - reflexivity.
Defined.

(** Inside a checkout [makePathRelative] gives the path below the root of
    the checkout: the root, a slash and the result are the path. *)
Theorem makePathRelative_in_checkout (fs : FileSystem) (cwd absolutePath root : str) :
  findGitRoot fs (dirname absolutePath) = Some root ->
  root ++ slash :: makePathRelative fs cwd absolutePath = absolutePath.
Proof.
  intros H. unfold makePathRelative. cbv zeta. rewrite H.
  unfold findGitRoot in H.
  destruct (findGitRootLoop fs (length (dirname absolutePath) + 2)
                            (dirname absolutePath) []) as [[r|]|] eqn:E;
    try discriminate.
  injection H as ->.
  destruct (findGitRootLoop_found fs _ _ _ _ E) as (_ & Hanc & Hne & _).
  specialize (Hne (dirname_not_empty absolutePath)).
  apply truthy_true in Hne. rewrite Hne.
  destruct (dirname_cut absolutePath) as [Hd|(b & Hb & _)].
  { exfalso. rewrite Hd in E. simpl in E. discriminate E. }
  assert (Hpre : exists rest, absolutePath = (root ++ [slash]) ++ rest).
  { destruct Hanc as [Hr | (rest & Hr)].
    - exists b. rewrite Hb at 1. rewrite <- Hr. now rewrite <- app_assoc.
    - exists (rest ++ slash :: b). rewrite Hb at 1. rewrite Hr.
      now rewrite <- !app_assoc. }
  destruct Hpre as (rest & Hpre).
  rewrite Hpre at 1. rewrite stripPrefix_app.
  rewrite Hpre. now rewrite <- app_assoc.
Qed.

Lemma makePathRelative_in_checkout_witness :
  lit "/repo" ++ slash
    :: makePathRelative Fixtures.fsCheckout (lit "/home/dev") (lit "/repo/tests/unit/auth.ts")
  = lit "/repo/tests/unit/auth.ts".
Proof.
  apply (makePathRelative_in_checkout Fixtures.fsCheckout (lit "/home/dev")
           (lit "/repo/tests/unit/auth.ts") (lit "/repo")).
  reflexivity.
Defined.
